(** * make-prc-key: generation of prc signing keys as compilable C++ source

    A shallow embedding of [dtool/src/prckeys/makePrcKey.cxx].  Streams are
    modelled by the text written to them, the [char] buffer of a memory BIO
    by a list of 8-bit characters, C integers by [Z] with the conversions
    written out, and the process state (files, error stream, key registry,
    OpenSSL state, clock) by a record threaded through a small state and
    exit monad. *)

From stdpp Require Import gmap strings list.
From Stdlib Require Import ZArith NArith Ascii Lia.


(** ** Characters and text *)

Definition nl : ascii := "010"%char.
Definition tab : ascii := "009"%char.
Definition dquote : ascii := "034"%char.
Definition bslash : ascii := "092"%char.
Definition hash_mark : ascii := "035"%char.

(** A one-character piece of text. *)
Definition chr (c : ascii) : string := String c EmptyString.

(** The characters of a string, and back. *)
Fixpoint chars (s : string) : list ascii :=
  match s with
  | EmptyString => []
  | String c r => c :: chars r
  end.

Fixpoint text (l : list ascii) : string :=
  match l with
  | [] => EmptyString
  | c :: r => String c (text r)
  end.

(** [isprint] in the "C" locale (the program never calls [setlocale]): the
    characters 0x20..0x7e.  A [char] with the high bit set is not
    printable. *)
Definition isprint (c : ascii) : bool :=
  let n := N_of_ascii c in ((32 <=? n) && (n <=? 126))%N.

(** ** Formatted output of integers *)

Definition digit_char (d : N) : ascii :=
  if (d <? 10)%N then ascii_of_N (48 + d) else ascii_of_N (87 + d).

(** Digits of [n] in [base], most significant first, pushed in front of
    [acc]; [fuel] bounds the number of digits. *)
Fixpoint digits_acc (base : N) (fuel : nat) (n : N) (acc : string) : string :=
  match fuel with
  | O => acc
  | S f =>
      let acc' := String (digit_char (n mod base)) acc in
      if (n / base =? 0)%N then acc' else digits_acc base f (n / base) acc'
  end.

(** [out << n] for an unsigned value in decimal ([std::dec]). *)
Definition string_of_N (n : N) : string :=
  digits_acc 10 (S (N.size_nat n)) n "".

(** [out << std::hex << n] for an unsigned value (lower-case digits). *)
Definition hex_of_N (n : N) : string :=
  digits_acc 16 (S (N.size_nat n)) n "".

(** [out << n] for a signed value in decimal. *)
Definition string_of_Z (z : Z) : string :=
  match z with
  | Z0 => "0"
  | Zpos p => string_of_N (Npos p)
  | Zneg p => "-" +:+ string_of_N (Npos p)
  end.

(** [std::setw(w) << std::setfill(c)]: pad on the left up to width [w]. *)
Definition setw_fill (w : nat) (c : ascii) (s : string) : string :=
  text (replicate (w - String.length s) c) +:+ s.

(** ** output_c_string *)

(** The loop body of [output_c_string] for one byte: the text it writes
    and the new value of [last_nl]. *)
Definition output_c_char (last_nl : bool) (c : ascii) : string * bool :=
  if Ascii.eqb c nl then
    (chr bslash +:+ "n", true)
  else
    let brk := if last_nl then chr dquote +:+ chr nl +:+ "  " +:+ chr dquote
               else "" in
    let body :=
      if Ascii.eqb c tab then chr bslash +:+ "t"
      else if isprint c then chr c
      else chr bslash +:+ "x" +:+ setw_fill 2 "0" (hex_of_N (N_of_ascii c)) in
    (brk +:+ body, false).

(** The [for] loop over the buffer. *)
Fixpoint output_c_loop (last_nl : bool) (data : list ascii) : string :=
  match data with
  | [] => ""
  | c :: rest =>
      let '(t, last_nl') := output_c_char last_nl c in
      t +:+ output_c_loop last_nl' rest
  end.

(** The text between the declaration's [=] and the length constant. *)
Definition c_string_open (string_name : string) (index : N) : string :=
  "static const char * const " +:+ string_name +:+ string_of_N index
    +:+ "_data =" +:+ chr nl +:+ "  " +:+ chr dquote.

Definition c_string_close (string_name : string) (index : N) (data_size : N)
  : string :=
  chr dquote +:+ ";" +:+ chr nl +:+ "static const unsigned int "
    +:+ string_name +:+ string_of_N index +:+ "_length = "
    +:+ string_of_N data_size +:+ ";" +:+ chr nl.

(** [output_c_string(out, string_name, index, mbio)]: the text appended to
    [out], where [data] is the content of the memory BIO. *)
Definition output_c_string (string_name : string) (index : N)
    (data : list ascii) : string :=
  c_string_open string_name index
    +:+ output_c_loop false data
    +:+ c_string_close string_name index (N.of_nat (length data)).

(** ** Reading a literal back

    The reader that undoes the escaping rules one piece at a time: the
    two-character escapes for newline and tab, the four-character
    hexadecimal escape, the break between adjacent literals, and any
    other printable character standing for itself. *)

Definition hex_value (c : ascii) : option N :=
  let n := N_of_ascii c in
  if ((48 <=? n) && (n <=? 57))%N then Some (n - 48)%N
  else if ((97 <=? n) && (n <=? 102))%N then Some (n - 87)%N
  else if ((65 <=? n) && (n <=? 70))%N then Some (n - 55)%N
  else None.

Fixpoint unescape (s : string) : option (list ascii) :=
  match s with
  | EmptyString => Some []
  | String c r =>
      if Ascii.eqb c bslash then
        match r with
        | String e r1 =>
            if Ascii.eqb e "n" then cons nl <$> unescape r1
            else if Ascii.eqb e "t" then cons tab <$> unescape r1
            else if Ascii.eqb e "x" then
              match r1 with
              | String h (String l r2) =>
                  match hex_value h, hex_value l with
                  | Some hv, Some lv =>
                      cons (ascii_of_N (16 * hv + lv)) <$> unescape r2
                  | _, _ => None
                  end
              | _ => None
              end
            else None
        | EmptyString => None
        end
      else if Ascii.eqb c dquote then
        match r with
        | String c1 (String c2 (String c3 (String c4 r4))) =>
            if Ascii.eqb c1 nl && Ascii.eqb c2 " " && Ascii.eqb c3 " "
               && Ascii.eqb c4 dquote
            then unescape r4 else None
        | _ => None
        end
      else if isprint c then cons c <$> unescape r
      else None
  end.

(** ** strtol

    The C library's [strtol(nptr, &endptr, 0)] on a platform whose [long]
    has 64 bits: white space is skipped, a sign is optional, a leading
    [0x] followed by a hexadecimal digit selects base 16, another leading
    [0] base 8, anything else base 10; the value saturates at the bounds
    of [long]; when no digit is read the value is 0 and [endptr] is
    [nptr]. *)

Definition isspace (c : ascii) : bool :=
  let n := N_of_ascii c in ((n =? 32) || ((9 <=? n) && (n <=? 13)))%N.

Definition digit_value (c : ascii) : option N :=
  let n := N_of_ascii c in
  if ((48 <=? n) && (n <=? 57))%N then Some (n - 48)%N
  else if ((97 <=? n) && (n <=? 122))%N then Some (n - 87)%N
  else if ((65 <=? n) && (n <=? 90))%N then Some (n - 55)%N
  else None.

Definition is_digit (base : N) (c : ascii) : bool :=
  match digit_value c with
  | Some d => (d <? base)%N
  | None => false
  end.

Fixpoint strtol_digits (base acc : N) (s : string) : N * string :=
  match s with
  | EmptyString => (acc, s)
  | String c r =>
      match digit_value c with
      | Some d =>
          if (d <? base)%N then strtol_digits base (acc * base + d) r
          else (acc, s)
      | None => (acc, s)
      end
  end.

Fixpoint skip_space (s : string) : string :=
  match s with
  | EmptyString => s
  | String c r => if isspace c then skip_space r else s
  end.

Definition LONG_MAX : Z := 2 ^ 63 - 1.
Definition LONG_MIN : Z := - 2 ^ 63.

Definition clamp_long (v : Z) : Z :=
  if (v <? LONG_MIN)%Z then LONG_MIN
  else if (LONG_MAX <? v)%Z then LONG_MAX else v.

Definition strtol (nptr : string) : Z * string :=
  let s := skip_space nptr in
  let '(neg, s1) :=
    match s with
    | String c r =>
        if Ascii.eqb c "-" then (true, r)
        else if Ascii.eqb c "+" then (false, r) else (false, s)
    | EmptyString => (false, s)
    end in
  let '(base, s2) :=
    match s1 with
    | String c0 r0 =>
        if Ascii.eqb c0 "0" then
          match r0 with
          | String x (String h r1) =>
              if (Ascii.eqb x "x" || Ascii.eqb x "X") && is_digit 16 h
              then (16%N, String h r1) else (8%N, s1)
          | _ => (8%N, s1)
          end
        else (10%N, s1)
    | EmptyString => (10%N, s1)
    end in
  match s2 with
  | String c _ =>
      if is_digit base c then
        let '(v, rest) := strtol_digits base 0 s2 in
        (clamp_long (if neg then - Z.of_N v else Z.of_N v), rest)
      else (0%Z, nptr)
  | EmptyString => (0%Z, nptr)
  end.

(** The conversion [(int)] of a [long]: reduction modulo [2^32] into the
    range of a 32-bit [int]. *)
Definition int_of_long (v : Z) : Z :=
  let m := (v mod 2 ^ 32)%Z in
  if (m <? 2 ^ 31)%Z then m else (m - 2 ^ 32)%Z.

(** The number of digits that [digits_acc] writes. *)
Fixpoint ndigits (fuel : nat) (n : N) : nat :=
  match fuel with
  | O => O
  | S f => if (n / 10 =? 0)%N then 1%nat else S (ndigits f (n / 10))
  end.

(** Bytes that the escaping rules treat as ordinary text although the
    reader gives them a meaning of their own. *)
Definition plain (c : ascii) : Prop := c <> bslash /\ c <> dquote.


(** ** Filename *)

(** [split_first c s]: the text before and after the first [c] in [s]
    ([s.find(c)] with the two [substr]). *)
Fixpoint split_first (c : ascii) (s : string) : option (string * string) :=
  match s with
  | EmptyString => None
  | String x r =>
      if Ascii.eqb x c then Some (EmptyString, r)
      else match split_first c r with
           | Some (a, b) => Some (String x a, b)
           | None => None
           end
  end.

(** [split_last c s]: the text before and after the last [c] in [s]. *)
Fixpoint split_last (c : ascii) (s : string) : option (string * string) :=
  match s with
  | EmptyString => None
  | String x r =>
      match split_last c r with
      | Some (a, b) => Some (String x a, b)
      | None => if Ascii.eqb x c then Some (EmptyString, r) else None
      end
  end.

(** The accessors of dtool's [Filename] class, whose source is not part of
    the files at hand.  A file name is its full path; the base name
    follows the last slash, and the extension is what follows the last
    dot of the base name. *)
Module Filename.

(** Modelled from the spec: [Filename::get_basename], the part of the
  path after its last slash. *)
Definition get_basename (f : string) : string :=
match split_last "/" f with
| Some (_, b) => b
| None => f
end.

(** Modelled from the spec: [Filename::get_extension], the "required
  extension" of the command surface: what follows the last dot of the
  base name, or nothing. *)
Definition get_extension (f : string) : string :=
match split_last "." (get_basename f) with
| Some (_, e) => e
| None => ""
end.

(** Modelled from the spec: [Filename::get_basename_wo_extension], the
  "output filename's base" of the private emitter. *)
Definition get_basename_wo_extension (f : string) : string :=
match split_last "." (get_basename f) with
| Some (b, _) => b
| None => get_basename f
end.

(** Modelled from the spec: [Filename::get_fullpath_wo_extension], the
  "filename stem" of the output path template. *)
Definition get_fullpath_wo_extension (f : string) : string :=
match split_last "/" f with
| Some (d, b) =>
    match split_last "." b with
    | Some (bw, _) => d +:+ "/" +:+ bw
    | None => f
    end
| None =>
    match split_last "." f with
    | Some (bw, _) => bw
    | None => f
    end
end.

End Filename.

(** ** Key requests *)

Record KeyNumber := {
  _number : Z;
  _got_pass_phrase : bool;
  _pass_phrase : string
}.

(** The body of the loop over the positional arguments: the request read
    from [arg], or the message sent to [cerr] before [exit(1)]. *)
Definition parse_key_number (got_pass_phrase : bool) (pass_phrase : string)
    (arg : string) : KeyNumber + string :=
  let '(v, endptr) := strtol arg in
  let number := int_of_long v in
  let checked (key : KeyNumber) : KeyNumber + string :=
    if (_number key <=? 0)%Z then
      inr ("Key numbers must be greater than 0; you specified "
             +:+ string_of_Z (_number key) +:+ "." +:+ chr nl)
    else inl key in
  match endptr with
  | String c r =>
      if Ascii.eqb c "," then
        checked {| _number := number; _got_pass_phrase := true;
                   _pass_phrase := r |}
      else
        inr ("Parameter '" +:+ arg +:+ "' should be an integer." +:+ chr nl)
  | EmptyString =>
      checked {| _number := number; _got_pass_phrase := got_pass_phrase;
                 _pass_phrase := pass_phrase |}
  end.

(** Whether the loop body kept the request. *)
Definition accepted (r : KeyNumber + string) : bool :=
  match r with
  | inl _ => true
  | inr _ => false
  end.

(** [s] occurs somewhere in [t]. *)
Fixpoint is_prefix (s t : string) : bool :=
  match s, t with
  | EmptyString, _ => true
  | String a s', String b t' => Ascii.eqb a b && is_prefix s' t'
  | String _ _, EmptyString => false
  end.

Fixpoint occurs_in (s t : string) : bool :=
  is_prefix s t ||
  match t with
  | EmptyString => false
  | String _ t' => occurs_in s t'
  end.

(** ** Names of the private key files *)

Record Template := {
  prefix : string;
  suffix : string;
  got_hash : bool
}.

(** The split of the [-b] file name at its first hash mark. *)
Definition split_template (priv_outfile : string) : Template :=
  let name := Filename.get_fullpath_wo_extension priv_outfile in
  match split_first hash_mark name with
  | None => {| prefix := name; suffix := ".cxx"; got_hash := false |}
  | Some (a, b) =>
      {| prefix := a; suffix := b +:+ ".cxx"; got_hash := true |}
  end.

(** The file name built in the generation loop for key number [n]. *)
Definition private_key_filename (t : Template) (n : Z) : string :=
  if got_hash t || negb (n =? 1)%Z then
    prefix t +:+ string_of_Z n +:+ suffix t
  else
    prefix t +:+ suffix t.

(** ** OpenSSL

    The calls into OpenSSL that the program makes.  The library has a
    state of its own (random pool, error queue, the terminal it prompts
    on), which the calls that depend on it take and return. *)

Inductive Cipher := des_ede3_cbc.

Class OpenSSL := {
  EVP_PKEY : Type;
  SSL : Type;
  (** [RAND_status(); OpenSSL_add_all_algorithms();] *)
  OpenSSL_init : SSL -> SSL;
  (** [RSA_new()] and [BN_new()]: whether both allocations succeeded. *)
  RSA_new : SSL -> bool * SSL;
  (** [RSA_generate_key_ex(rsa, bits, e, nullptr)] followed by
      [EVP_PKEY_assign_RSA]. *)
  RSA_generate_key_ex : N -> N -> SSL -> option EVP_PKEY * SSL;
  (** [PEM_write_bio_PUBKEY(mbio, pkey)]: the bytes written to the BIO. *)
  PEM_write_bio_PUBKEY : EVP_PKEY -> option (list ascii);
  (** [PEM_write_bio_PKCS8PrivateKey(mbio, pkey, enc, nullptr, 0, nullptr, u)]:
      without [enc] the key is written in the clear; with [enc] it is
      encrypted under the pass phrase [u], which the library asks for on
      the terminal when [u] is null. *)
  PEM_write_bio_PKCS8PrivateKey :
    EVP_PKEY -> option Cipher -> option string -> SSL ->
    option (list ascii) * SSL
}.

(** ** The process *)

Inductive FileState :=
  | Closed (content : string)
  | Partial (written : string).

Inductive CerrItem :=
  | Line (s : string)
  | Usage
  | SslErrors.

Inductive Event :=
  | EvGenerate
  | EvSetKey (n : Z)
  | EvOpen (path : string)
  | EvClose (path : string).

Inductive Flag :=
  | flag_a (optarg : string)
  | flag_b (optarg : string)
  | flag_p (optarg : string)
  | flag_h
  | flag_other.

(** What [preprocess_argv] and [getopt] make of the command line: the
    options in the order [getopt] returns them ([flag_other] for any
    return value that is none of the four), and the arguments left after
    them. *)
Record CommandLine := {
  flags : list Flag;
  params : list string
}.

Record Options := {
  pub_outfile : string;
  got_pub_outfile : bool;
  priv_outfile : string;
  got_priv_outfile : bool;
  pass_phrase : string;
  got_pass_phrase : bool
}.

Definition no_options : Options :=
  {| pub_outfile := ""; got_pub_outfile := false;
     priv_outfile := ""; got_priv_outfile := false;
     pass_phrase := ""; got_pass_phrase := false |}.

(** The pass phrase handed to [write_private_key]: a null pointer unless
    the request has one. *)
Definition request_pass_phrase (ki : KeyNumber) : option string :=
  if _got_pass_phrase ki then Some (_pass_phrase ki) else None.

(** The [enc] and [u] arguments of [PEM_write_bio_PKCS8PrivateKey] that
    [write_private_key] chooses. *)
Definition pkcs8_arguments (pp : option string)
  : option Cipher * option string :=
  match pp with
  | Some EmptyString => (None, None)
  | _ => (Some des_ede3_cbc, pp)
  end.

(** An [int] passed for a [size_t]. *)
Definition size_t_of_int (n : Z) : N := Z.to_N (n mod 2 ^ 64).

(** The loop over the positional arguments. *)
Fixpoint parse_key_list (got_pass_phrase : bool) (pass_phrase : string)
    (args : list string) : list KeyNumber + string :=
  match args with
  | [] => inl []
  | arg :: rest =>
      match parse_key_number got_pass_phrase pass_phrase arg with
      | inr msg => inr msg
      | inl key =>
          match parse_key_list got_pass_phrase pass_phrase rest with
          | inr msg => inr msg
          | inl keys => inl (key :: keys)
          end
      end
  end.

Section Process.

Context `{OpenSSL}.

(** Modelled from the spec: a slot of [PrcKeyRegistry], whose source is
    not part of the files at hand.  The registry is indexed by key
    number; a slot holds a key or is absent. *)
Record KeySlot := {
  _pkey : option EVP_PKEY;
  _generated_time : Z
}.

(** Modelled from the spec: the absent marker of the registry, a slot
    that serializes as the null entry. *)
Definition absent : KeySlot := {| _pkey := None; _generated_time := 0 |}.

(** Modelled from the spec: [PrcKeyRegistry::get_num_keys], the size of
    the registry's key-number space. *)
Definition get_num_keys (reg : list KeySlot) : nat := length reg.

(** Modelled from the spec: [PrcKeyRegistry::get_key], the key of a slot
    or null for an absent slot or an index out of range. *)
Definition get_key (reg : list KeySlot) (i : nat) : option EVP_PKEY :=
  match reg !! i with
  | Some slot => _pkey slot
  | None => None
  end.

(** Modelled from the spec: [PrcKeyRegistry::get_generated_time]. *)
Definition get_generated_time (reg : list KeySlot) (i : nat) : Z :=
  match reg !! i with
  | Some slot => _generated_time slot
  | None => 0
  end.

(** Modelled from the spec: the registry with slot [i] inserted or
    replaced; the slots below [i] that were never set stay absent. *)
Definition set_slot (i : nat) (slot : KeySlot) (reg : list KeySlot)
  : list KeySlot :=
  <[i := slot]> (reg ++ replicate (S i - length reg) absent).

(** Modelled from the spec: [PrcKeyRegistry::set_key], which records a
    key and its time stamp under its level. *)
Definition set_key (n : Z) (pkey : EVP_PKEY) (now : Z)
    (reg : list KeySlot) : list KeySlot :=
  set_slot (Z.to_nat n) {| _pkey := Some pkey; _generated_time := now |} reg.

(** Modelled from the spec: [PrcKeyRegistry::record_keys], which records
    each entry of a compiled-in table that has data. *)
Fixpoint record_keys_from (i : nat) (defs : list KeySlot)
    (reg : list KeySlot) : list KeySlot :=
  match defs with
  | [] => reg
  | d :: rest =>
      record_keys_from (S i) rest
        (match _pkey d with
         | Some _ => set_slot i d reg
         | None => reg
         end)
  end.

Definition record_keys := record_keys_from 0.

(** The state of the process and of what it acts on. *)
Record World := {
  fs : gmap string FileState;
  writable : string -> bool;
  cerr : list CerrItem;
  registry : list KeySlot;
  ssl : SSL;
  clock : nat -> Z;
  ticks : nat;
  trace : list Event
}.

Definition with_fs (f : gmap string FileState -> gmap string FileState)
    (w : World) : World :=
  {| fs := f (fs w); writable := writable w; cerr := cerr w;
     registry := registry w; ssl := ssl w; clock := clock w;
     ticks := ticks w; trace := trace w |}.

Definition with_cerr (f : list CerrItem -> list CerrItem) (w : World)
  : World :=
  {| fs := fs w; writable := writable w; cerr := f (cerr w);
     registry := registry w; ssl := ssl w; clock := clock w;
     ticks := ticks w; trace := trace w |}.

Definition with_registry (f : list KeySlot -> list KeySlot) (w : World)
  : World :=
  {| fs := fs w; writable := writable w; cerr := cerr w;
     registry := f (registry w); ssl := ssl w; clock := clock w;
     ticks := ticks w; trace := trace w |}.

Definition with_ssl (s : SSL) (w : World) : World :=
  {| fs := fs w; writable := writable w; cerr := cerr w;
     registry := registry w; ssl := s; clock := clock w;
     ticks := ticks w; trace := trace w |}.

Definition with_ticks (t : nat) (w : World) : World :=
  {| fs := fs w; writable := writable w; cerr := cerr w;
     registry := registry w; ssl := ssl w; clock := clock w;
     ticks := t; trace := trace w |}.

Definition with_event (e : Event) (w : World) : World :=
  {| fs := fs w; writable := writable w; cerr := cerr w;
     registry := registry w; ssl := ssl w; clock := clock w;
     ticks := ticks w; trace := trace w ++ [e] |}.

(** A computation runs to its end with a value, or the process exits
    with a status on the way. *)
Inductive Result (A : Type) :=
  | Done (a : A) (w : World)
  | Exited (status : Z) (w : World).
Global Arguments Done {A} a w.
Global Arguments Exited {A} status w.

Definition M (A : Type) : Type := World -> Result A.

Definition ret {A} (a : A) : M A := fun w => Done a w.

Definition bind {A B} (m : M A) (k : A -> M B) : M B :=
  fun w =>
    match m w with
    | Done a w' => k a w'
    | Exited s w' => Exited s w'
    end.

Definition exit {A} (status : Z) : M A := fun w => Exited status w.

Definition update (f : World -> World) : M unit := fun w => Done tt (f w).

Definition world_of {A} (r : Result A) : World :=
  match r with
  | Done _ w => w
  | Exited _ w => w
  end.

(** The exit status of the process when [main] is the computation. *)
Definition status_of (r : Result Z) : Z :=
  match r with
  | Done v _ => v
  | Exited s _ => s
  end.

End Process.

Notation "'do' x <- m ; k" := (bind m (fun x => k))
  (at level 10, x name, m at level 100, k at level 200,
   format "'[v' 'do'  x  <-  m ;  '/' k ']'").
Notation "m >> k" := (bind m (fun _ => k))
  (at level 100, k at level 200, right associativity).

Section Program.

Context `{OpenSSL}.

(** *** Streams, files, clock *)

Definition cerr_put (i : CerrItem) : M unit :=
  update (with_cerr (fun l => l ++ [i])).

Definition cerr_line (s : string) : M unit := cerr_put (Line s).

(** [usage()] *)
Definition usage : M unit := cerr_put Usage.

(** [output_ssl_errors()] *)
Definition output_ssl_errors : M unit := cerr_put SslErrors.

(** [outfile.open_write(out)]: on success the file is there and empty. *)
Definition open_write (path : string) : M bool :=
  fun w =>
    if writable w path then
      Done true (with_event (EvOpen path)
                   (with_fs (insert path (Partial "")) w))
    else Done false w.

Definition append_to (s : string) (st : FileState) : FileState :=
  match st with
  | Partial t => Partial (t +:+ s)
  | Closed t => Closed t
  end.

(** [out << s] on the stream opened on [path]. *)
Definition out_put (path : string) (s : string) : M unit :=
  update (with_fs (alter (append_to s) path)).

Definition finish (st : FileState) : FileState :=
  match st with
  | Partial t => Closed t
  | Closed t => Closed t
  end.

(** The end of the scope of the stream opened on [path]. *)
Definition close (path : string) : M unit :=
  update (fun w => with_event (EvClose path) (with_fs (alter finish path) w)).

(** [time(nullptr)] *)
Definition time : M Z :=
  fun w => Done (clock w (ticks w)) (with_ticks (S (ticks w)) w).

Definition ssl_call {A} (f : SSL -> A * SSL) : M A :=
  fun w => let '(a, s) := f (ssl w) in Done a (with_ssl s w).

Fixpoint for_each {A} (l : list A) (body : A -> M unit) : M unit :=
  match l with
  | [] => ret tt
  | x :: rest => body x >> for_each rest body
  end.

(** *** generate_key *)

Definition generate_key : M EVP_PKEY :=
  do allocated <- ssl_call RSA_new;
  if negb allocated then output_ssl_errors >> exit 1
  else
    do pkey <- ssl_call (RSA_generate_key_ex 1024 7);
    match pkey with
    | None => output_ssl_errors >> exit 1
    | Some k => update (with_event EvGenerate) >> ret k
    end.

(** *** write_public_keys *)

Definition public_header : string :=
  chr nl
    +:+ "// This file was generated by make-prc-key.  It defines the public keys"
    +:+ chr nl
    +:+ "// that will be used to validate signed prc files." +:+ chr nl
    +:+ chr nl
    +:+ "#include " +:+ chr dquote +:+ "prcKeyRegistry.h" +:+ chr dquote
    +:+ chr nl +:+ chr nl.

(** The body of the first loop: the serialized key of slot [i]. *)
Definition write_public_blob (outfile : string) (reg : list KeySlot)
    (i : nat) : M unit :=
  match get_key reg i with
  | Some pkey =>
      match PEM_write_bio_PUBKEY pkey with
      | None => output_ssl_errors >> exit 1
      | Some data =>
          out_put outfile (output_c_string "prc_pubkey" (N.of_nat i) data)
          >> out_put outfile (chr nl)
      end
  | None => ret tt
  end.

(** The body of the second loop: the table entry of slot [i]. *)
Definition public_table_row (reg : list KeySlot) (i : nat) : string :=
  match get_key reg i with
  | Some _ =>
      "  { prc_pubkey" +:+ string_of_N (N.of_nat i) +:+ "_data, prc_pubkey"
        +:+ string_of_N (N.of_nat i) +:+ "_length, "
        +:+ string_of_Z (get_generated_time reg i) +:+ " }," +:+ chr nl
  | None => "  { nullptr, 0, 0 }," +:+ chr nl
  end.

Definition write_public_keys (outfile : string) : M unit :=
  cerr_line ("Rewriting " +:+ outfile +:+ chr nl) >>
  do opened <- open_write outfile;
  if negb opened then
    cerr_line ("Unable to open " +:+ outfile +:+ " for writing." +:+ chr nl)
    >> exit 1
  else
    out_put outfile public_header >>
    fun w =>
      let pkr := registry w in
      let num_keys := get_num_keys pkr in
      (for_each (seq 0 num_keys) (write_public_blob outfile pkr) >>
       out_put outfile
         ("static PrcKeyRegistry::KeyDef const prc_pubkeys["
            +:+ string_of_N (N.of_nat num_keys) +:+ "] = {" +:+ chr nl) >>
       for_each (seq 0 num_keys)
         (fun i => out_put outfile (public_table_row pkr i)) >>
       out_put outfile
         ("};" +:+ chr nl +:+ "static const int num_prc_pubkeys = "
            +:+ string_of_N (N.of_nat num_keys) +:+ ";" +:+ chr nl
            +:+ chr nl) >>
       close outfile) w.

(** *** write_private_key *)

Definition private_header (n : Z) : string :=
  chr nl
    +:+ "// This file was generated by make-prc-key.  It can be compiled against"
    +:+ chr nl
    +:+ "// dtool to produce a program that will sign a prc file using key number "
    +:+ string_of_Z n +:+ "." +:+ chr nl +:+ chr nl.

Definition private_trailer (outfile : string) (n now : Z) : string :=
  chr nl +:+ chr nl
    +:+ "#define KEY_NUMBER " +:+ string_of_Z n +:+ chr nl
    +:+ "#define KEY_DATA prc_privkey" +:+ string_of_Z n +:+ "_data" +:+ chr nl
    +:+ "#define KEY_LENGTH prc_privkey" +:+ string_of_Z n +:+ "_length"
    +:+ chr nl
    +:+ "#define PROGNAME " +:+ chr dquote
    +:+ Filename.get_basename_wo_extension outfile +:+ chr dquote +:+ chr nl
    +:+ "#define GENERATED_TIME " +:+ string_of_Z now +:+ chr nl +:+ chr nl
    +:+ "#include " +:+ chr dquote +:+ "signPrcFile_src.cxx" +:+ chr dquote
    +:+ chr nl +:+ chr nl.

Definition write_private_key (pkey : EVP_PKEY) (outfile : string) (n : Z)
    (now : Z) (pp : option string) : M unit :=
  cerr_line ("Rewriting " +:+ outfile +:+ chr nl) >>
  do opened <- open_write outfile;
  if negb opened then
    cerr_line ("Unable to open " +:+ outfile +:+ " for writing." +:+ chr nl)
    >> exit 1
  else
    out_put outfile (private_header n) >>
    do write_result <-
      ssl_call (PEM_write_bio_PKCS8PrivateKey pkey
                  (fst (pkcs8_arguments pp)) (snd (pkcs8_arguments pp)));
    match write_result with
    | None => output_ssl_errors >> exit 1
    | Some data =>
        out_put outfile
          (output_c_string "prc_privkey" (size_t_of_int n) data) >>
        out_put outfile (private_trailer outfile n now) >>
        close outfile
    end.

(** *** main *)

(** The [getopt] loop. *)
Fixpoint parse_flags (fl : list Flag) (o : Options) : M Options :=
  match fl with
  | [] => ret o
  | flag_a optarg :: rest =>
      parse_flags rest
        {| pub_outfile := optarg; got_pub_outfile := true;
           priv_outfile := priv_outfile o;
           got_priv_outfile := got_priv_outfile o;
           pass_phrase := pass_phrase o;
           got_pass_phrase := got_pass_phrase o |}
  | flag_b optarg :: rest =>
      parse_flags rest
        {| pub_outfile := pub_outfile o;
           got_pub_outfile := got_pub_outfile o;
           priv_outfile := optarg; got_priv_outfile := true;
           pass_phrase := pass_phrase o;
           got_pass_phrase := got_pass_phrase o |}
  | flag_p optarg :: rest =>
      parse_flags rest
        {| pub_outfile := pub_outfile o;
           got_pub_outfile := got_pub_outfile o;
           priv_outfile := priv_outfile o;
           got_priv_outfile := got_priv_outfile o;
           pass_phrase := optarg; got_pass_phrase := true |}
  | flag_h :: _ => usage >> exit 0
  | flag_other :: _ => exit 1
  end.

(** The checks on the two output file names; the result is the name of
    the public key file.  [compiled_in] is the table [prc_pubkeys] and
    the name [PRC_PUBLIC_KEYS_FILENAME] when the program was built with
    [PRC_PUBLIC_KEYS_INCLUDE]. *)
Definition validate_paths (compiled_in : option (list KeySlot * string))
    (o : Options) : M string :=
  do pub <-
    (if got_pub_outfile o then
       if negb (String.eqb (Filename.get_extension (pub_outfile o)) "cxx")
       then
         cerr_line ("Public key output file '" +:+ pub_outfile o
                      +:+ "' should have a .cxx extension." +:+ chr nl)
         >> exit 1
       else ret (pub_outfile o)
     else
       do pub <-
         match compiled_in with
         | Some (prc_pubkeys, filename) =>
             update (with_registry (record_keys prc_pubkeys))
             >> ret filename
         | None => ret (pub_outfile o)
         end;
       match pub with
       | EmptyString =>
           cerr_line ("No -a specified, and no PRC_PUBLIC_KEYS_FILENAME variable"
                        +:+ chr nl +:+ "compiled in." +:+ chr nl +:+ chr nl)
           >> exit 1
       | _ => ret pub
       end);
  if got_priv_outfile o then
    if negb (String.eqb (Filename.get_extension (priv_outfile o)) "cxx")
    then
      cerr_line ("Private key output file '" +:+ priv_outfile o
                   +:+ "' should have a .cxx extension." +:+ chr nl)
      >> exit 1
    else ret pub
  else
    cerr_line ("You must use the -b option to specify the private key output filenames."
                 +:+ chr nl)
    >> exit 1.

(** The body of the generation loop. *)
Definition generate_one (t : Template) (now : Z) (ki : KeyNumber) : M unit :=
  let n := _number ki in
  let pp := request_pass_phrase ki in
  do pkey <- generate_key;
  update (fun w => with_event (EvSetKey n)
                     (with_registry (set_key n pkey now) w)) >>
  write_private_key pkey (private_key_filename t n) n now pp.

(** Everything up to the generation loop: the options, the file names
    and the requests. *)
Definition startup (compiled_in : option (list KeySlot * string))
    (cl : CommandLine) : M (Options * string * list KeyNumber) :=
  do o <- parse_flags (flags cl) no_options;
  match params cl with
  | [] => usage >> exit 1
  | _ =>
      do pub <- validate_paths compiled_in o;
      match parse_key_list (got_pass_phrase o) (pass_phrase o) (params cl)
      with
      | inr msg => cerr_line msg >> exit 1
      | inl key_numbers => ret (o, pub, key_numbers)
      end
  end.

(** The rest of [main]: the generation loop and the public key file. *)
Definition generate_and_flush (o : Options) (pub : string)
    (key_numbers : list KeyNumber) : M Z :=
  update (fun w => with_ssl (OpenSSL_init (ssl w)) w) >>
  do now <- time;
  for_each key_numbers (generate_one (split_template (priv_outfile o)) now)
  >> write_public_keys pub
  >> ret 0%Z.

Definition main (compiled_in : option (list KeySlot * string))
    (cl : CommandLine) : M Z :=
  do s <- startup compiled_in cl;
  let '(o, pub, key_numbers) := s in
  generate_and_flush o pub key_numbers.

End Program.

(** ** A small instance

    A stand-in for OpenSSL on which the program can be run: the keys are
    numbered in the order of their generation, every call succeeds, and
    the encodings spell out what was asked for. *)
Module Toy.

Definition pem_public (k : nat) : option (list ascii) :=
  Some (chars ("PUBLIC " +:+ string_of_N (N.of_nat k)) ++ [nl]).

Definition pem_private (k : nat) (enc : option Cipher) (u : option string)
    (s : nat) : option (list ascii) * nat :=
  (Some (chars ("PRIVATE " +:+ string_of_N (N.of_nat k)
                  +:+ match enc, u with
                      | None, _ => " CLEAR"
                      | Some _, Some p => " UNDER " +:+ p
                      | Some _, None => " PROMPT"
                      end) ++ [nl]), s).

#[export] Instance openssl : OpenSSL := {|
  EVP_PKEY := nat;
  SSL := nat;
  OpenSSL_init := fun s => s;
  RSA_new := fun s => (true, s);
  RSA_generate_key_ex := fun _ _ s => (Some s, S s);
  PEM_write_bio_PUBKEY := pem_public;
  PEM_write_bio_PKCS8PrivateKey := pem_private
|}.

Definition world : World :=
  {| fs := ∅; writable := fun _ => true; cerr := []; registry := [];
     ssl := 0%nat;
     clock := fun t => match t with O => 1700000000 | S _ => 1700000060 end%Z;
     ticks := 0; trace := [] |}.

Definition command_line : CommandLine :=
  {| flags := [flag_a "pub.cxx"; flag_b "priv#.cxx"];
     params := ["1"; "3," +:+ "hunter2"; "1,"] |}.

(** What the start of [main] makes of that command line. *)
Definition options : Options :=
  {| pub_outfile := "pub.cxx"; got_pub_outfile := true;
     priv_outfile := "priv#.cxx"; got_priv_outfile := true;
     pass_phrase := ""; got_pass_phrase := false |}.

Definition requests : list KeyNumber :=
  [ {| _number := 1; _got_pass_phrase := false; _pass_phrase := "" |};
    {| _number := 3; _got_pass_phrase := true; _pass_phrase := "hunter2" |} ].

Definition last_request : KeyNumber :=
  {| _number := 1; _got_pass_phrase := true; _pass_phrase := "" |}.

(** The registry after the levels 1 and 3 were generated. *)
Definition world_1_3 : World :=
  with_registry (fun reg => set_key 3 (7%nat : EVP_PKEY) 1700000000
                              (set_key 1 (5%nat : EVP_PKEY) 1700000000 reg))
    world.

Definition wrong_extension : CommandLine :=
  {| flags := [flag_a "pub.txt"; flag_b "priv#.cxx"]; params := ["1"] |}.

End Toy.

(** ** The texts of the generated files *)

Definition join (l : list string) : string := foldr String.append "" l.

(** The first option at which the [getopt] loop leaves the program. *)
Fixpoint first_terminal (fl : list Flag) : option Flag :=
  match fl with
  | [] => None
  | flag_h :: _ => Some flag_h
  | flag_other :: _ => Some flag_other
  | _ :: rest => first_terminal rest
  end.

(** The options as the [getopt] loop leaves them when it runs through. *)
Fixpoint options_of (fl : list Flag) (o : Options) : Options :=
  match fl with
  | [] => o
  | flag_a optarg :: rest =>
      options_of rest
        {| pub_outfile := optarg; got_pub_outfile := true;
           priv_outfile := priv_outfile o;
           got_priv_outfile := got_priv_outfile o;
           pass_phrase := pass_phrase o;
           got_pass_phrase := got_pass_phrase o |}
  | flag_b optarg :: rest =>
      options_of rest
        {| pub_outfile := pub_outfile o;
           got_pub_outfile := got_pub_outfile o;
           priv_outfile := optarg; got_priv_outfile := true;
           pass_phrase := pass_phrase o;
           got_pass_phrase := got_pass_phrase o |}
  | flag_p optarg :: rest =>
      options_of rest
        {| pub_outfile := pub_outfile o;
           got_pub_outfile := got_pub_outfile o;
           priv_outfile := priv_outfile o;
           got_priv_outfile := got_priv_outfile o;
           pass_phrase := optarg; got_pass_phrase := true |}
  | _ :: rest => options_of rest o
  end.

(** The process leaves with status 1. *)
Definition fatal `{OpenSSL} {A} (r : Result A) : Prop :=
  exists w', r = Exited 1 w'.

Section Texts.

Context `{OpenSSL}.

(** What a complete private key file holds. *)
Definition private_file_text (outfile : string) (n now : Z)
    (data : list ascii) : string :=
  private_header n
    +:+ output_c_string "prc_privkey" (size_t_of_int n) data
    +:+ private_trailer outfile n now.

(** The serialized key of slot [i] in the public key file. *)
Definition public_blob (reg : list KeySlot) (i : nat) : string :=
  match get_key reg i with
  | Some pkey =>
      match PEM_write_bio_PUBKEY pkey with
      | Some data =>
          output_c_string "prc_pubkey" (N.of_nat i) data +:+ chr nl
      | None => ""
      end
  | None => ""
  end.

Definition public_table_open (num_keys : nat) : string :=
  "static PrcKeyRegistry::KeyDef const prc_pubkeys["
    +:+ string_of_N (N.of_nat num_keys) +:+ "] = {" +:+ chr nl.

Definition public_table_close (num_keys : nat) : string :=
  "};" +:+ chr nl +:+ "static const int num_prc_pubkeys = "
    +:+ string_of_N (N.of_nat num_keys) +:+ ";" +:+ chr nl +:+ chr nl.

(** The events of one round of the generation loop that runs through. *)
Definition request_events (t : Template) (ki : KeyNumber) : list Event :=
  [EvGenerate; EvSetKey (_number ki);
   EvOpen (private_key_filename t (_number ki));
   EvClose (private_key_filename t (_number ki))].

(** What a complete public key file holds. *)
Definition public_file_text (reg : list KeySlot) : string :=
  public_header
    +:+ join (map (public_blob reg) (seq 0 (get_num_keys reg)))
    +:+ public_table_open (get_num_keys reg)
    +:+ join (map (public_table_row reg) (seq 0 (get_num_keys reg)))
    +:+ public_table_close (get_num_keys reg).

(** The slots among [l] that come before the first one whose key cannot
    be written in PEM form, when there is such a slot. *)
Fixpoint before_failure (reg : list KeySlot) (l : list nat)
  : option (list nat) :=
  match l with
  | [] => None
  | i :: rest =>
      match get_key reg i with
      | Some pkey =>
          match PEM_write_bio_PUBKEY pkey with
          | Some _ => cons i <$> before_failure reg rest
          | None => Some []
          end
      | None => cons i <$> before_failure reg rest
      end
  end.

(** Every populated slot of the registry has a key that can be
    written in PEM form. *)
Definition encodable (reg : list KeySlot) : Prop :=
  forall i pkey, get_key reg i = Some pkey ->
                 is_Some (PEM_write_bio_PUBKEY pkey).

(** A relation between the world before and after a computation that
    holds however the computation ends. *)
Definition preserves {A} (R : World -> World -> Prop) (m : M A) : Prop :=
  forall w, R w (world_of (m w)).

(** Every exit of a computation carries a status in [P]. *)
Definition exits_with {A} (P : Z -> Prop) (m : M A) : Prop :=
  forall w s w', m w = Exited s w' -> P s.

Definition is_one (s : Z) : Prop := s = 1%Z.

(** The events of a round that was left on the way. *)
Definition cut_short (t : Template) (ki : KeyNumber) (evs : list Event)
  : Prop :=
  evs = [] \/ evs = [EvGenerate; EvSetKey (_number ki)]
  \/ evs = [EvGenerate; EvSetKey (_number ki);
            EvOpen (private_key_filename t (_number ki))].



(** What the generation loop may change when it works with the time
    stamp [now]: the clock is not read; a slot of the registry reads as
    before or holds a key stamped [now]; a file is as before, or a
    complete private key file stamped [now], or one that was being
    written when the process exited. *)
Definition stamped (now : Z) (w0 w' : World) : Prop :=
  ticks w' = ticks w0 /\ clock w' = clock w0
  /\ (forall i,
        (get_key (registry w') i = get_key (registry w0) i
         /\ get_generated_time (registry w') i
            = get_generated_time (registry w0) i)
        \/ (is_Some (get_key (registry w') i)
            /\ get_generated_time (registry w') i = now))
  /\ (forall p,
        fs w' !! p = fs w0 !! p
        \/ (exists n data,
              fs w' !! p = Some (Closed (private_file_text p n now data)))
        \/ (exists n, fs w' !! p = Some (Partial (private_header n)))).



End Texts.

(** ** More of the serializer *)

(** The value of [last_nl] when the loop of [output_c_string] has gone
    through [data], having started with [last_nl]. *)
Definition last_nl_after (last_nl : bool) (data : list ascii) : bool :=
  match last data with
  | Some c => Ascii.eqb c nl
  | None => last_nl
  end.

(** The break between two adjacent literals. *)
Definition literal_break : string :=
  chr dquote +:+ chr nl +:+ "  " +:+ chr dquote.

(** A character of the generated text that is no control or high-bit
    character: printable, or the line feed that ends a line. *)
Definition text_char (c : ascii) : Prop := isprint c = true \/ c = nl.

(** ** More runs on the small instance *)

Module Cases.

#[local] Existing Instance Toy.openssl.

(** A world in which no file can be opened for writing. *)
Definition read_only : World :=
  {| fs := ∅; writable := fun _ => false; cerr := []; registry := [];
     ssl := 0%nat; clock := fun _ => 1700000000%Z; ticks := 0;
     trace := [] |}.

(** A build with a table of one key compiled in, under number 1, and a
    run without [-a]. *)
Definition prc_pubkeys : list KeySlot :=
  [absent; {| _pkey := Some 9%nat; _generated_time := 1600000000 |}].

Definition no_a : CommandLine :=
  {| flags := [flag_b "priv#.cxx"]; params := ["2"] |}.

Definition no_a_options : Options :=
  {| pub_outfile := ""; got_pub_outfile := false;
     priv_outfile := "priv#.cxx"; got_priv_outfile := true;
     pass_phrase := ""; got_pass_phrase := false |}.

(** Bytes of three kinds: escaped, printable and with the high bit
    set. *)
Definition mixed_bytes : list ascii :=
  [tab; "a"%char; nl; "200"%char; "b"%char].

End Cases.
(** ** Facts about the serializer *)

Lemma append_cons (x : ascii) (a b : string) :
  String x a +:+ b = String x (a +:+ b).
Proof. reflexivity. Qed.

Lemma append_nil_l (b : string) : "" +:+ b = b.
Proof. reflexivity. Qed.

Lemma append_assoc (a b c : string) : (a +:+ b) +:+ c = a +:+ (b +:+ c).
Proof.
  induction a as [|x a IH]; [reflexivity|].
  now rewrite !append_cons, IH.
Qed.

Lemma append_nil_r (a : string) : a +:+ "" = a.
Proof.
  induction a as [|x a IH]; [reflexivity|].
  now rewrite append_cons, IH.
Qed.

(** Normalises appends of known pieces of text. *)
Ltac norm_append :=
  unfold chr; repeat (rewrite ?append_assoc, ?append_cons, ?append_nil_l).

Lemma unescape_newline r :
  unescape (String bslash (String "n" r)) = cons nl <$> unescape r.
Proof. reflexivity. Qed.

Lemma unescape_tab r :
  unescape (String bslash (String "t" r)) = cons tab <$> unescape r.
Proof. reflexivity. Qed.

Lemma unescape_break r :
  unescape (String dquote (String nl (String " " (String " " (String dquote r)))))
  = unescape r.
Proof. reflexivity. Qed.

(** The hexadecimal escape of any byte is two digits that read back as
    that byte. *)
Lemma unescape_hex (c : ascii) r :
  unescape (chr bslash +:+ "x" +:+ setw_fill 2 "0" (hex_of_N (N_of_ascii c)) +:+ r)
  = cons c <$> unescape r.
Proof.
  destruct c as [[] [] [] [] [] [] [] []]; reflexivity.
Qed.


Lemma unescape_verbatim (c : ascii) r :
  c <> bslash -> c <> dquote -> isprint c = true ->
  unescape (String c r) = cons c <$> unescape r.
Proof.
  intros Hb Hq Hp. simpl.
  apply Ascii.eqb_neq in Hb. apply Ascii.eqb_neq in Hq.
  now rewrite Hb, Hq, Hp.
Qed.

Lemma unescape_output_c_loop (data : list ascii) :
  Forall plain data ->
  forall last_nl, unescape (output_c_loop last_nl data) = Some data.
Proof.
  induction 1 as [|c data [Hb Hq] _ IH]; intros last_nl; [reflexivity|].
  cbn [output_c_loop]. unfold output_c_char.
  destruct (Ascii.eqb c nl) eqn:Enl.
  - apply Ascii.eqb_eq in Enl. subst c. norm_append.
    rewrite unescape_newline, IH. reflexivity.
  - assert (Hbody :
      unescape ((if Ascii.eqb c tab then chr bslash +:+ "t"
                 else if isprint c then chr c
                 else chr bslash +:+ "x"
                      +:+ setw_fill 2 "0" (hex_of_N (N_of_ascii c)))
                +:+ output_c_loop false data) = Some (c :: data)).
    { destruct (Ascii.eqb c tab) eqn:Etab.
      - apply Ascii.eqb_eq in Etab. subst c. norm_append.
        rewrite unescape_tab, IH. reflexivity.
      - destruct (isprint c) eqn:Hp.
        + norm_append. rewrite unescape_verbatim by assumption.
          rewrite IH. reflexivity.
        + rewrite !append_assoc.
          rewrite unescape_hex, IH. reflexivity. }
    destruct last_nl.
    + rewrite append_assoc. norm_append. rewrite unescape_break.
      revert Hbody. norm_append. exact (fun H => H).
    + rewrite append_nil_l. exact Hbody.
Qed.

(** ** Facts about decimal output *)

Lemma digit_value_digit_char (d : N) :
  (d < 10)%N -> digit_value (digit_char d) = Some d.
Proof.
  intros Hd.
  assert (Hc : (d = 0 \/ d = 1 \/ d = 2 \/ d = 3 \/ d = 4 \/ d = 5 \/ d = 6
                \/ d = 7 \/ d = 8 \/ d = 9)%N) by lia.
  repeat (destruct Hc as [-> | Hc]; [reflexivity|]). now subst.
Qed.

Lemma strtol_digits_digits_acc (fuel : nat) :
  forall (n : N) (acc : string) (a : N),
    (n < 10 ^ N.of_nat fuel)%N ->
    strtol_digits 10 a (digits_acc 10 fuel n acc)
    = strtol_digits 10 (a * 10 ^ N.of_nat (ndigits fuel n) + n) acc.
Proof.
  induction fuel as [|f IH]; intros n acc a Hn.
  - simpl in Hn. assert (Hz : n = 0%N) by lia. subst n. simpl. f_equal. lia.
  - cbn [digits_acc ndigits].
    assert (Hmod : (n mod 10 < 10)%N) by (apply N.mod_lt; lia).
    assert (Hdiv : (n = 10 * (n / 10) + n mod 10)%N)
      by (apply N.div_mod; lia).
    destruct (n / 10 =? 0)%N eqn:E.
    + apply N.eqb_eq in E. cbn [strtol_digits].
      rewrite digit_value_digit_char by assumption.
      apply N.ltb_lt in Hmod. rewrite Hmod. f_equal.
      change (N.of_nat 1) with 1%N. lia.
    + apply N.eqb_neq in E.
      rewrite IH.
      2:{ rewrite Nat2N.inj_succ, N.pow_succ_r' in Hn.
          apply N.Div0.div_lt_upper_bound. lia. }
      cbn [strtol_digits]. rewrite digit_value_digit_char by assumption.
      apply N.ltb_lt in Hmod. rewrite Hmod. f_equal.
      rewrite Nat2N.inj_succ, N.pow_succ_r'. lia.
Qed.

Lemma size_nat_bound (n : N) : (n < 10 ^ N.of_nat (S (N.size_nat n)))%N.
Proof.
  assert (H2 : (n < 2 ^ N.of_nat (N.size_nat n))%N).
  { destruct n as [|p]; [simpl; lia|].
    simpl N.size_nat. induction p as [p IH|p IH|]; cbn [Pos.size_nat].
    - rewrite Nat2N.inj_succ, N.pow_succ_r'. lia.
    - rewrite Nat2N.inj_succ, N.pow_succ_r'. lia.
    - simpl. lia. }
  rewrite Nat2N.inj_succ, N.pow_succ_r'.
  assert (H3 : (2 ^ N.of_nat (N.size_nat n) <= 10 ^ N.of_nat (N.size_nat n))%N)
    by (apply N.pow_le_mono_l; lia).
  assert (0 < 10 ^ N.of_nat (N.size_nat n))%N by (apply N.neq_0_lt_0, N.pow_nonzero; lia).
  lia.
Qed.

(** Reading the decimal output of [n] gives back [n], whatever follows
    that is not a digit. *)
Lemma strtol_digits_string_of_N (n : N) (r : string) :
  strtol_digits 10 0 r = (0%N, r) ->
  strtol_digits 10 0 (string_of_N n +:+ r) = (n, r).
Proof.
  intros Hr. unfold string_of_N.
  assert (Happ : forall fuel m acc,
             digits_acc 10 fuel m acc +:+ r = digits_acc 10 fuel m (acc +:+ r)).
  { induction fuel as [|f IHf]; intros m acc; [reflexivity|].
    cbn [digits_acc]. destruct (m / 10 =? 0)%N; [reflexivity|].
    now rewrite IHf. }
  rewrite Happ, append_nil_l, strtol_digits_digits_acc by apply size_nat_bound.
  rewrite N.mul_0_l, N.add_0_l.
  destruct r as [|c r']; [reflexivity|].
  cbn [strtol_digits] in Hr |- *.
  destruct (digit_value c) as [d|]; [|reflexivity].
  destruct (d <? 10)%N; [|reflexivity].
  exfalso.
  assert (Hmono : forall s a v t, strtol_digits 10 a s = (v, t) ->
             String.length t <= String.length s).
  { induction s as [|x s IHs]; intros a v t H; cbn [strtol_digits] in H.
    - inversion H; subst. simpl. lia.
    - destruct (digit_value x) as [dx|].
      + destruct (dx <? 10)%N.
        * apply IHs in H. simpl. lia.
        * inversion H; subst. simpl. lia.
      + inversion H; subst. simpl. lia. }
  apply Hmono in Hr. simpl in Hr. lia.
Qed.

(** A decimal numeral of a positive number starts with a digit other
    than zero. *)
Lemma digits_acc_head (fuel : nat) :
  forall (n : N) (acc : string),
    (0 < n < 10 ^ N.of_nat fuel)%N ->
    exists d r, (1 <= d <= 9)%N /\
                digits_acc 10 fuel n acc = String (digit_char d) r.
Proof.
  induction fuel as [|f IH]; intros n acc [Hpos Hn].
  - simpl in Hn. lia.
  - cbn [digits_acc].
    assert (Hmod : (n mod 10 < 10)%N) by (apply N.mod_lt; lia).
    assert (Hdiv : (n = 10 * (n / 10) + n mod 10)%N)
      by (apply N.div_mod; lia).
    destruct (n / 10 =? 0)%N eqn:E.
    + apply N.eqb_eq in E. exists (n mod 10)%N. eexists. split; [lia|reflexivity].
    + apply N.eqb_neq in E. apply IH. split; [lia|].
      rewrite Nat2N.inj_succ, N.pow_succ_r' in Hn.
      apply N.Div0.div_lt_upper_bound. lia.
Qed.

Lemma string_of_N_head (p : positive) :
  exists d r, (1 <= d <= 9)%N /\ string_of_N (Npos p) = String (digit_char d) r.
Proof.
  apply digits_acc_head. split; [lia | apply size_nat_bound].
Qed.

Lemma digit_char_nonzero (d : N) :
  (1 <= d <= 9)%N ->
  isspace (digit_char d) = false /\ Ascii.eqb (digit_char d) "-" = false
  /\ Ascii.eqb (digit_char d) "+" = false
  /\ Ascii.eqb (digit_char d) "0" = false
  /\ is_digit 10 (digit_char d) = true.
Proof.
  intros Hd.
  assert (Hc : (d = 1 \/ d = 2 \/ d = 3 \/ d = 4 \/ d = 5 \/ d = 6
                \/ d = 7 \/ d = 8 \/ d = 9)%N) by lia.
  repeat (destruct Hc as [Hc | Hc]; [subst d; repeat split; reflexivity|]).
  subst d; repeat split; reflexivity.
Qed.

(** [strtol] on text that starts with a decimal digit other than zero,
    with or without a minus sign in front. *)
Lemma strtol_decimal (c : ascii) (r : string) :
  isspace c = false -> Ascii.eqb c "-" = false -> Ascii.eqb c "+" = false ->
  Ascii.eqb c "0" = false -> is_digit 10 c = true ->
  strtol (String c r)
  = (clamp_long (Z.of_N (fst (strtol_digits 10 0 (String c r)))),
     snd (strtol_digits 10 0 (String c r))).
Proof.
  intros Hsp Hm Hp H0 Hdg. unfold strtol. cbn [skip_space].
  rewrite Hsp, Hm, Hp, H0, Hdg.
  now destruct (strtol_digits 10 0 (String c r)).
Qed.

Lemma strtol_decimal_neg (c : ascii) (r : string) :
  Ascii.eqb c "0" = false -> is_digit 10 c = true ->
  strtol (String "-" (String c r))
  = (clamp_long (- Z.of_N (fst (strtol_digits 10 0 (String c r)))),
     snd (strtol_digits 10 0 (String c r))).
Proof.
  intros H0 Hdg. unfold strtol. cbn [skip_space].
  change (isspace "-") with false. cbv iota.
  change (Ascii.eqb "-" "-") with true. cbv iota.
  rewrite H0, Hdg.
  now destruct (strtol_digits 10 0 (String c r)).
Qed.

Lemma strtol_string_of_N_pos (p : positive) :
  strtol (string_of_N (Npos p)) = (clamp_long (Zpos p), "").
Proof.
  destruct (string_of_N_head p) as (d & r & Hd & Hs).
  pose proof (strtol_digits_string_of_N (Npos p) "" eq_refl) as Hdig.
  rewrite append_nil_r in Hdig. rewrite Hs in Hdig |- *.
  destruct (digit_char_nonzero d Hd) as (Hsp & Hm & Hp & H0 & Hdg).
  rewrite strtol_decimal by assumption. now rewrite Hdig.
Qed.

Lemma strtol_string_of_N_neg (p : positive) :
  strtol ("-" +:+ string_of_N (Npos p)) = (clamp_long (Zneg p), "").
Proof.
  destruct (string_of_N_head p) as (d & r & Hd & Hs).
  pose proof (strtol_digits_string_of_N (Npos p) "" eq_refl) as Hdig.
  rewrite append_nil_r in Hdig.
  rewrite append_cons, append_nil_l. rewrite Hs in Hdig |- *.
  destruct (digit_char_nonzero d Hd) as (Hsp & Hm & Hp & H0 & Hdg).
  rewrite strtol_decimal_neg by assumption. now rewrite Hdig.
Qed.

(** [strtol] reads the decimal output of any [long] back. *)
Lemma strtol_string_of_Z (z : Z) :
  (LONG_MIN <= z <= LONG_MAX)%Z -> strtol (string_of_Z z) = (z, "").
Proof.
  intros Hz.
  assert (Hcl : clamp_long z = z).
  { unfold clamp_long.
    destruct (z <? LONG_MIN)%Z eqn:E1; [apply Z.ltb_lt in E1; lia|].
    destruct (LONG_MAX <? z)%Z eqn:E2; [apply Z.ltb_lt in E2; lia|].
    reflexivity. }
  destruct z as [|p|p]; cbn [string_of_Z].
  - reflexivity.
  - now rewrite strtol_string_of_N_pos, Hcl.
  - now rewrite strtol_string_of_N_neg, Hcl.
Qed.

Lemma int_of_long_small (z : Z) :
  (- 2 ^ 31 <= z < 2 ^ 31)%Z -> int_of_long z = z.
Proof.
  intros Hz. unfold int_of_long.
  destruct (Z.neg_nonneg_cases z) as [Hneg | Hpos].
  - assert (Hm : (z mod 2 ^ 32 = z + 2 ^ 32)%Z).
    { symmetry. apply (Z.mod_unique _ _ (-1)); lia. }
    rewrite Hm.
    destruct (z + 2 ^ 32 <? 2 ^ 31)%Z eqn:E; [apply Z.ltb_lt in E; lia | lia].
  - rewrite Z.mod_small by lia.
    destruct (z <? 2 ^ 31)%Z eqn:E; [reflexivity | apply Z.ltb_ge in E; lia].
Qed.

(** ** The serializer and its reader *)

(** For a buffer without backslash and double-quote bytes the emitted
    declarations consist of the opening text, a literal body that reads
    back as the buffer, and a length constant whose digits read back as
    the number of bytes of the buffer. *)
Theorem output_c_string_roundtrip_plain (string_name : string) (index : N)
    (data : list ascii) :
  Forall plain data ->
  exists body digits,
    output_c_string string_name index data
    = c_string_open string_name index +:+ body +:+ chr dquote +:+ ";"
        +:+ chr nl +:+ "static const unsigned int " +:+ string_name
        +:+ string_of_N index +:+ "_length = " +:+ digits
    /\ unescape body = Some data
    /\ strtol_digits 10 0 digits = (N.of_nat (length data), ";" +:+ chr nl).
Proof.
  intros Hplain.
  exists (output_c_loop false data),
         (string_of_N (N.of_nat (length data)) +:+ ";" +:+ chr nl).
  split; [|split].
  - reflexivity.
  - now apply unescape_output_c_loop.
  - now apply strtol_digits_string_of_N.
Qed.

(** C1 (the code at the failing input): the three bytes tab, backslash,
    [t] and the three bytes backslash, [t], tab are different buffers for
    which [output_c_string] emits the same declarations, literal and
    length constant alike, and the literal of the second reads back as two
    tab bytes; a double-quote byte is copied into the literal as it is and
    ends it.  So no reader of the emitted text gives back the bytes of
    every buffer. *)
Theorem output_c_string_not_injective (string_name : string) (index : N) :
  output_c_string string_name index [tab; bslash; "t"%char]
  = output_c_string string_name index [bslash; "t"%char; tab]
  /\ [tab; bslash; "t"%char] <> [bslash; "t"%char; tab]
  /\ output_c_loop false [bslash; "t"%char; tab]
     = chr bslash +:+ "t" +:+ chr bslash +:+ "t"
  /\ unescape (output_c_loop false [bslash; "t"%char; tab]) = Some [tab; tab]
  /\ output_c_loop false [dquote] = chr dquote
  /\ unescape (output_c_loop false [dquote]) = None.
Proof.
  repeat split; try reflexivity. discriminate.
Qed.

(** ** Key requests *)

(** C2 (as amended): let [n] be the integer that [strtol] reads from a
    token, taken as an [int] (0 when the token has no integer part), and
    [endptr] what [strtol] leaves unread.  The token is accepted exactly
    when [n] is greater than 0 and [endptr] is empty or starts with a
    comma; a token whose [endptr] is neither is refused, whatever [n] is,
    with a message that quotes the token as it was given; a token whose
    [endptr] is empty or starts with a comma and whose [n] is 0 or
    negative is refused with a message that gives [n] in decimal; and the
    decimal numeral of an [int] [z] is accepted exactly when [z] is
    greater than 0. *)
Theorem parse_key_number_spec (got : bool) (pp arg : string) :
  let n := int_of_long (fst (strtol arg)) in
  let endptr := snd (strtol arg) in
  let ends_well := endptr = "" \/ exists r, endptr = String "," r in
  (accepted (parse_key_number got pp arg) = true <-> (0 < n)%Z /\ ends_well)
  /\ (forall key, parse_key_number got pp arg = inl key -> _number key = n)
  /\ (~ ends_well ->
      parse_key_number got pp arg
      = inr ("Parameter '" +:+ arg +:+ "' should be an integer." +:+ chr nl))
  /\ (ends_well -> (n <= 0)%Z ->
      parse_key_number got pp arg
      = inr ("Key numbers must be greater than 0; you specified "
               +:+ string_of_Z n +:+ "." +:+ chr nl))
  /\ (forall z : Z, (- 2 ^ 31 <= z < 2 ^ 31)%Z ->
      accepted (parse_key_number got pp (string_of_Z z)) = true <-> (0 < z)%Z).
Proof.
  assert (Hgen : forall a,
    let n := int_of_long (fst (strtol a)) in
    let endptr := snd (strtol a) in
    let ends_well := endptr = "" \/ exists r, endptr = String "," r in
    (accepted (parse_key_number got pp a) = true <-> (0 < n)%Z /\ ends_well)
    /\ (forall key, parse_key_number got pp a = inl key -> _number key = n)
    /\ (~ ends_well ->
        parse_key_number got pp a
        = inr ("Parameter '" +:+ a +:+ "' should be an integer." +:+ chr nl))
    /\ (ends_well -> (n <= 0)%Z ->
        parse_key_number got pp a
        = inr ("Key numbers must be greater than 0; you specified "
                 +:+ string_of_Z n +:+ "." +:+ chr nl))).
  { intros a. unfold parse_key_number.
    destruct (strtol a) as [v endptr]. cbn [fst snd].
    destruct endptr as [|c r].
    - assert (Hends : @eq string "" "" \/ exists r : string, "" = String "," r)
        by now left.
      cbn [_number]. destruct (int_of_long v <=? 0)%Z eqn:E.
      + apply Z.leb_le in E.
        split; [split; [discriminate | intros [H _]; lia]|].
        split; [discriminate|]. split; [tauto | reflexivity].
      + apply Z.leb_gt in E.
        split; [split; [split; [lia | assumption] | reflexivity]|].
        split; [intros key H; now inversion H|]. split; [tauto | lia].
    - destruct (Ascii.eqb c ",") eqn:Ec.
      + apply Ascii.eqb_eq in Ec. subst c.
        assert (Hends : String "," r = "" \/
                        exists r' : string, String "," r = String "," r')
          by (right; now exists r).
        cbn [_number]. destruct (int_of_long v <=? 0)%Z eqn:E.
        * apply Z.leb_le in E.
          split; [split; [discriminate | intros [H _]; lia]|].
          split; [discriminate|]. split; [tauto | reflexivity].
        * apply Z.leb_gt in E.
          split; [split; [split; [lia | assumption] | reflexivity]|].
          split; [intros key H; now inversion H|]. split; [tauto | lia].
      + apply Ascii.eqb_neq in Ec.
        assert (Hends : ~ (String c r = "" \/
                           exists r' : string, String c r = String "," r')).
        { intros [H | [r' H]]; [discriminate | congruence]. }
        split; [split; [discriminate | tauto]|].
        split; [discriminate|]. split; [reflexivity | tauto]. }
  cbv zeta in Hgen |- *.
  destruct (Hgen arg) as (H1 & H2 & H3 & H4).
  split; [exact H1|]. split; [exact H2|]. split; [exact H3|].
  split; [exact H4|].
  intros z Hz.
  destruct (Hgen (string_of_Z z)) as (Hacc & _).
  rewrite strtol_string_of_Z in Hacc by (unfold LONG_MIN, LONG_MAX; lia).
  cbn [fst snd] in Hacc. rewrite int_of_long_small in Hacc by assumption.
  rewrite Hacc. split; [tauto | intros H; split; [assumption | now left]].
Qed.

(** C2 (where the spec has both messages quote the token): the token
    [-0x10] is refused because the integer read from it is negative, and
    the message gives that integer, -16; the token itself does not occur
    in it. *)
Lemma parse_key_number_message_names_value :
  parse_key_number false "" "-0x10"
  = inr ("Key numbers must be greater than 0; you specified -16."
           +:+ chr nl)
  /\ occurs_in "-0x10"
       ("Key numbers must be greater than 0; you specified -16." +:+ chr nl)
     = false.
Proof. split; reflexivity. Qed.

(** Which of the two messages a refused token gets: the empty token and
    a token that starts with a comma read as 0 and get the message with
    the number; a number followed by something else than a comma gets
    the message with the token, also when the number is 0 or negative. *)
Lemma parse_key_number_refusals :
  parse_key_number false "" ""
  = inr ("Key numbers must be greater than 0; you specified 0." +:+ chr nl)
  /\ parse_key_number false "" ",x"
     = inr ("Key numbers must be greater than 0; you specified 0."
              +:+ chr nl)
  /\ parse_key_number false "" "abc"
     = inr ("Parameter 'abc' should be an integer." +:+ chr nl)
  /\ parse_key_number false "" "0abc"
     = inr ("Parameter '0abc' should be an integer." +:+ chr nl)
  /\ parse_key_number false "" "-5x"
     = inr ("Parameter '-5x' should be an integer." +:+ chr nl).
Proof. repeat split; reflexivity. Qed.

(** ** File names *)

Lemma split_last_app (c : ascii) (s a b : string) :
  split_last c s = Some (a, b) -> s = a +:+ String c b.
Proof.
  revert a b. induction s as [|x s IH]; intros a b H; cbn [split_last] in H.
  - discriminate.
  - destruct (split_last c s) as [[a' b']|].
    + inversion H; subst. rewrite append_cons. f_equal. now apply IH.
    + destruct (Ascii.eqb x c) eqn:E; [|discriminate].
      apply Ascii.eqb_eq in E. inversion H; subst. reflexivity.
Qed.

Lemma split_first_intro (c : ascii) (pre post : string) :
  c ∉ chars pre -> split_first c (pre +:+ String c post) = Some (pre, post).
Proof.
  induction pre as [|x pre IH]; intros Hnot.
  - rewrite append_nil_l. cbn [split_first]. now rewrite Ascii.eqb_refl.
  - cbn [chars] in Hnot. apply not_elem_of_cons in Hnot as [Hne Hnot].
    rewrite append_cons. cbn [split_first].
    assert (E : Ascii.eqb x c = false) by (apply Ascii.eqb_neq; congruence).
    now rewrite E, IH.
Qed.

Lemma split_first_none (c : ascii) (s : string) :
  c ∉ chars s -> split_first c s = None.
Proof.
  induction s as [|x s IH]; intros Hnot; [reflexivity|].
  cbn [chars] in Hnot. apply not_elem_of_cons in Hnot as [Hne Hnot].
  cbn [split_first].
  assert (E : Ascii.eqb x c = false) by (apply Ascii.eqb_neq; congruence).
  now rewrite E, IH.
Qed.

(** A file name with the extension [cxx] is its full path without the
    extension, followed by [.cxx]. *)
Lemma fullpath_wo_extension_cxx (f : string) :
  Filename.get_extension f = "cxx" ->
  f = Filename.get_fullpath_wo_extension f +:+ ".cxx".
Proof.
  unfold Filename.get_extension, Filename.get_basename,
    Filename.get_fullpath_wo_extension.
  destruct (split_last "/" f) as [[d b]|] eqn:Eslash.
  - destruct (split_last "." b) as [[bw e]|] eqn:Edot; [|discriminate].
    intros ->. apply split_last_app in Eslash, Edot. subst b f.
    now rewrite !append_assoc.
  - destruct (split_last "." f) as [[bw e]|] eqn:Edot; [|discriminate].
    intros ->. now apply split_last_app in Edot.
Qed.

(** C4: for a [-b] file name with the extension [cxx] and any key number
    [n]: when the name has a hash mark, the output name is the name with
    its (first) hash mark replaced by [n]; when it has none, the output
    name is the file name as given for [n = 1], and the name with [n] put
    in front of [.cxx] for any other [n]. *)
Theorem private_key_filename_spec (priv_outfile : string) (n : Z) :
  Filename.get_extension priv_outfile = "cxx" ->
  let name := Filename.get_fullpath_wo_extension priv_outfile in
  let out := private_key_filename (split_template priv_outfile) n in
  priv_outfile = name +:+ ".cxx"
  /\ (forall pre post,
        name = pre +:+ String hash_mark post -> hash_mark ∉ chars pre ->
        out = pre +:+ string_of_Z n +:+ post +:+ ".cxx")
  /\ (hash_mark ∉ chars name -> n = 1%Z -> out = priv_outfile)
  /\ (hash_mark ∉ chars name -> n <> 1%Z ->
      out = name +:+ string_of_Z n +:+ ".cxx").
Proof.
  intros Hext name out. subst name out.
  pose proof (fullpath_wo_extension_cxx _ Hext) as Hfull.
  unfold private_key_filename, split_template.
  split; [exact Hfull|]. split; [|split].
  - intros pre post Hname Hnot.
    rewrite Hname, split_first_intro by assumption. reflexivity.
  - intros Hnot ->. rewrite split_first_none by assumption.
    cbn. now rewrite <- Hfull.
  - intros Hnot Hn. rewrite split_first_none by assumption.
    cbn [got_hash prefix suffix orb].
    destruct (n =? 1)%Z eqn:E; [apply Z.eqb_eq in E; contradiction|].
    reflexivity.
Qed.

(** The three names of the spec's examples. *)
Lemma private_key_filename_examples :
  private_key_filename (split_template "key#.cxx") 3 = "key3.cxx"
  /\ private_key_filename (split_template "key.cxx") 1 = "key.cxx"
  /\ private_key_filename (split_template "key.cxx") 2 = "key2.cxx".
Proof.
  assert (Hh : hash_mark ∉ chars "key").
  { cbn [chars]. rewrite !not_elem_of_cons. unfold hash_mark.
    repeat split; try discriminate. apply not_elem_of_nil. }
  destruct (private_key_filename_spec "key#.cxx" 3 eq_refl) as (_ & H3 & _).
  destruct (private_key_filename_spec "key.cxx" 1 eq_refl) as (_ & _ & H1 & _).
  destruct (private_key_filename_spec "key.cxx" 2 eq_refl) as (_ & _ & _ & H2).
  split; [|split].
  - exact (H3 "key" "" eq_refl Hh).
  - exact (H1 Hh eq_refl).
  - exact (H2 Hh ltac:(discriminate)).
Defined.

(** ** Running the program *)

Section Runs.

Context `{OpenSSL}.

Lemma world_eq (w1 w2 : World) :
  fs w1 = fs w2 -> writable w1 = writable w2 -> cerr w1 = cerr w2 ->
  registry w1 = registry w2 -> ssl w1 = ssl w2 -> clock w1 = clock w2 ->
  ticks w1 = ticks w2 -> trace w1 = trace w2 -> w1 = w2.
Proof. destruct w1, w2; simpl; intros; subst; reflexivity. Qed.

Lemma alter_lookup_insert {A} (f : A -> A) (m : gmap string A)
    (k : string) (v : A) :
  m !! k = Some v -> alter f k m = <[k := f v]> m.
Proof.
  intros Hk. apply map_eq. intros j.
  destruct (decide (k = j)) as [<-|Hne].
  - now rewrite lookup_alter_eq, lookup_insert_eq, Hk.
  - now rewrite lookup_alter_ne, lookup_insert_ne.
Qed.

Lemma out_put_partial (path s t : string) (w : World) :
  fs w !! path = Some (Partial t) ->
  out_put path s w
  = Done tt (with_fs (insert path (Partial (t +:+ s))) w).
Proof.
  intros Hp. unfold out_put, update. f_equal.
  apply world_eq; try reflexivity. simpl.
  exact (alter_lookup_insert (append_to s) _ _ _ Hp).
Qed.

Lemma close_partial (path t : string) (w : World) :
  fs w !! path = Some (Partial t) ->
  close path w
  = Done tt (with_event (EvClose path)
               (with_fs (insert path (Closed t)) w)).
Proof.
  intros Hp. unfold close, update. f_equal.
  apply world_eq; try reflexivity. simpl.
  exact (alter_lookup_insert finish _ _ _ Hp).
Qed.

Lemma for_each_app {A} (l1 l2 : list A) (body : A -> M unit) (w : World) :
  for_each (l1 ++ l2) body w
  = (for_each l1 body >> for_each l2 body) w.
Proof.
  revert w. induction l1 as [|x l1 IH]; intros w; [reflexivity|].
  cbn [for_each app]. unfold bind.
  destruct (body x w) as [[] w1|s w1]; [|reflexivity].
  rewrite IH. reflexivity.
Qed.

(** *** write_private_key *)

Lemma write_private_key_run (pkey : EVP_PKEY) (outfile : string)
    (n now : Z) (pp : option string) (w : World) :
  write_private_key pkey outfile n now pp w
  = let w1 := with_cerr (fun l => l ++ [Line ("Rewriting " +:+ outfile
                                                 +:+ chr nl)]) w in
    if writable w outfile then
      match PEM_write_bio_PKCS8PrivateKey pkey (fst (pkcs8_arguments pp))
              (snd (pkcs8_arguments pp)) (ssl w) with
      | (Some data, s) =>
          Done tt
            {| fs := <[outfile := Closed (private_file_text outfile n now
                                            data)]> (fs w);
               writable := writable w; cerr := cerr w1;
               registry := registry w; ssl := s; clock := clock w;
               ticks := ticks w;
               trace := trace w ++ [EvOpen outfile; EvClose outfile] |}
      | (None, s) =>
          Exited 1
            {| fs := <[outfile := Partial (private_header n)]> (fs w);
               writable := writable w; cerr := cerr w1 ++ [SslErrors];
               registry := registry w; ssl := s; clock := clock w;
               ticks := ticks w; trace := trace w ++ [EvOpen outfile] |}
      end
    else
      Exited 1
        (with_cerr (fun l => l ++ [Line ("Unable to open " +:+ outfile
                                           +:+ " for writing." +:+ chr nl)])
           w1).
Proof.
  cbv zeta. unfold write_private_key, bind, cerr_line, cerr_put, update,
    open_write, ssl_call, output_ssl_errors, exit.
  cbn [writable with_cerr].
  destruct (writable w outfile); [|reflexivity].
  cbn [negb]. rewrite out_put_partial with (t := "")
    by (cbn [fs with_event with_fs with_cerr]; apply lookup_insert_eq).
  cbn [ssl with_fs with_event with_cerr].
  destruct (PEM_write_bio_PKCS8PrivateKey pkey _ _ (ssl w)) as [[data|] s].
  - erewrite out_put_partial
      by (cbn [fs with_ssl]; apply lookup_insert_eq).
    erewrite out_put_partial
      by (cbn [fs with_ssl with_fs]; apply lookup_insert_eq).
    erewrite close_partial
      by (cbn [fs with_ssl with_fs]; apply lookup_insert_eq).
    f_equal. apply world_eq; try reflexivity.
    + cbn. rewrite !insert_insert_eq. unfold private_file_text.
      now rewrite append_nil_l, !append_assoc.
    + cbn. now rewrite <- app_assoc.
  - f_equal. apply world_eq; try reflexivity.
    cbn. now rewrite insert_insert_eq.
Qed.

(** *** What every step keeps: relations between the world before and
    after a computation, whether it runs through or exits *)

Section Preserved.

Variable R : World -> World -> Prop.
Hypothesis R_refl : forall w, R w w.
Hypothesis R_trans : forall w1 w2 w3, R w1 w2 -> R w2 w3 -> R w1 w3.

Lemma preserves_ret {A} (a : A) : preserves R (ret a).
Proof. intros w. apply R_refl. Qed.

Lemma preserves_exit {A} (s : Z) : preserves R (@exit _ A s).
Proof. intros w. apply R_refl. Qed.

Lemma preserves_bind {A B} (m : M A) (k : A -> M B) :
  preserves R m -> (forall a, preserves R (k a)) -> preserves R (bind m k).
Proof.
  intros Hm Hk w. unfold bind. specialize (Hm w).
  destruct (m w) as [a w1|s w1]; cbn [world_of] in *; [|assumption].
  eapply R_trans; [eassumption | apply Hk].
Qed.

Lemma preserves_update (f : World -> World) :
  (forall w, R w (f w)) -> preserves R (update f).
Proof. intros Hf w. apply Hf. Qed.

Lemma preserves_for_each {A} (l : list A) (body : A -> M unit) :
  (forall x, preserves R (body x)) -> preserves R (for_each l body).
Proof.
  intros Hb. induction l as [|x l IH]; cbn [for_each].
  - apply preserves_ret.
  - apply preserves_bind; [apply Hb | intros _; apply IH].
Qed.

Lemma preserves_if {A} (b : bool) (m1 m2 : M A) :
  preserves R m1 -> preserves R m2 -> preserves R (if b then m1 else m2).
Proof. now destruct b. Qed.

End Preserved.

Lemma exits_with_ret {A} P (a : A) : exits_with P (ret a).
Proof. intros w s w' Hr. discriminate. Qed.

Lemma exits_with_update P (f : World -> World) : exits_with P (update f).
Proof. intros w s w' Hr. discriminate. Qed.

Lemma exits_with_exit {A} (P : Z -> Prop) (s : Z) :
  P s -> exits_with P (@exit _ A s).
Proof. intros Hs w s' w' Hr. inversion Hr; now subst. Qed.

Lemma exits_with_bind {A B} P (m : M A) (k : A -> M B) :
  exits_with P m -> (forall a, exits_with P (k a)) ->
  exits_with P (bind m k).
Proof.
  intros Hm Hk w s w' Hr. unfold bind in Hr.
  destruct (m w) as [a w1|s1 w1] eqn:E.
  - eapply Hk; eassumption.
  - inversion Hr; subst. eapply Hm; eassumption.
Qed.

Lemma exits_with_for_each {A} P (l : list A) (body : A -> M unit) :
  (forall x, exits_with P (body x)) -> exits_with P (for_each l body).
Proof.
  intros Hb. induction l as [|x l IH]; cbn [for_each].
  - apply exits_with_ret.
  - apply exits_with_bind; [apply Hb | intros _; apply IH].
Qed.

Lemma exits_with_if {A} P (b : bool) (m1 m2 : M A) :
  exits_with P m1 -> exits_with P m2 ->
  exits_with P (if b then m1 else m2).
Proof. now destruct b. Qed.

Lemma exits_with_open_write P (path : string) :
  exits_with P (open_write path).
Proof.
  intros w s w' Hr. unfold open_write in Hr.
  destruct (writable w path); discriminate.
Qed.

Lemma exits_with_ssl_call {A} P (f : SSL -> A * SSL) :
  exits_with P (ssl_call f).
Proof.
  intros w s w' Hr. unfold ssl_call in Hr.
  destruct (f (ssl w)); discriminate.
Qed.

Lemma exits_with_time P : exits_with P time.
Proof. intros w s w' Hr. discriminate. Qed.

Lemma exits_with_fun {A} P (m : World -> M A) :
  (forall w0, exits_with P (m w0)) -> exits_with P (fun w => m w w).
Proof. intros Hm w s w' Hr. eapply Hm; eassumption. Qed.

(** Solves that the exits of a computation built from the steps above
    all carry a status in [P]. *)
Ltac exits :=
  repeat first
    [ apply exits_with_ret | apply exits_with_update
    | apply exits_with_open_write | apply exits_with_ssl_call
    | apply exits_with_time
    | apply exits_with_exit; reflexivity
    | apply exits_with_bind; [|intros ?]
    | apply exits_with_for_each; intros ?
    | apply exits_with_if
    | match goal with
      | |- exits_with _ (match ?x with _ => _ end) => destruct x
      end ].

Lemma generate_key_exits : exits_with is_one generate_key.
Proof. unfold generate_key, output_ssl_errors, cerr_put. exits. Qed.

Lemma write_private_key_exits pkey outfile n now pp :
  exits_with is_one (write_private_key pkey outfile n now pp).
Proof.
  unfold write_private_key, output_ssl_errors, cerr_line, cerr_put,
    out_put, close.
  exits.
Qed.

Lemma write_public_keys_exits outfile :
  exits_with is_one (write_public_keys outfile).
Proof.
  unfold write_public_keys, cerr_line, cerr_put. exits.
  apply (exits_with_fun _
           (fun w0 =>
              for_each (seq 0 (get_num_keys (registry w0)))
                (write_public_blob outfile (registry w0)) >> _)).
  intros w0. unfold write_public_blob, output_ssl_errors, cerr_put,
    out_put, close.
  exits.
Qed.

Lemma generate_one_exits t now ki :
  exits_with is_one (generate_one t now ki).
Proof.
  unfold generate_one. exits.
Qed.

(** *** generate_key and the body of the generation loop *)

Lemma generate_key_run (w : World) :
  generate_key w
  = match RSA_new (ssl w) with
    | (false, s1) =>
        Exited 1 (with_cerr (fun l => l ++ [SslErrors]) (with_ssl s1 w))
    | (true, s1) =>
        match RSA_generate_key_ex 1024 7 s1 with
        | (None, s2) =>
            Exited 1 (with_cerr (fun l => l ++ [SslErrors]) (with_ssl s2 w))
        | (Some k, s2) => Done k (with_event EvGenerate (with_ssl s2 w))
        end
    end.
Proof.
  unfold generate_key, bind, ssl_call, output_ssl_errors, cerr_put, update,
    exit, ret.
  destruct (RSA_new (ssl w)) as [[] s1]; cbn [negb ssl with_ssl];
    [|reflexivity].
  destruct (RSA_generate_key_ex 1024 7 s1) as [[k|] s2]; reflexivity.
Qed.

(** A round that runs through: the key it generated, the bytes of its
    private half, and the world it leaves. *)
Lemma generate_one_done (t : Template) (now : Z) (ki : KeyNumber)
    (w w' : World) :
  generate_one t now ki w = Done tt w' ->
  let n := _number ki in
  let f := private_key_filename t n in
  let pp := request_pass_phrase ki in
  exists s1 k s2 data s3,
    RSA_new (ssl w) = (true, s1)
    /\ RSA_generate_key_ex 1024 7 s1 = (Some k, s2)
    /\ PEM_write_bio_PKCS8PrivateKey k (fst (pkcs8_arguments pp))
         (snd (pkcs8_arguments pp)) s2 = (Some data, s3)
    /\ writable w f = true
    /\ w' = {| fs := <[f := Closed (private_file_text f n now data)]> (fs w);
               writable := writable w;
               cerr := cerr w ++ [Line ("Rewriting " +:+ f +:+ chr nl)];
               registry := set_key n k now (registry w);
               ssl := s3; clock := clock w; ticks := ticks w;
               trace := trace w ++ request_events t ki |}.
Proof.
  intros Hrun n f pp. unfold generate_one, bind in Hrun.
  rewrite generate_key_run in Hrun.
  destruct (RSA_new (ssl w)) as [[] s1] eqn:Enew; [|discriminate].
  destruct (RSA_generate_key_ex 1024 7 s1) as [[k|] s2] eqn:Egen;
    [|discriminate].
  unfold update in Hrun. rewrite write_private_key_run in Hrun.
  cbv zeta in Hrun.
  cbn [writable ssl fs cerr registry clock ticks trace with_event
         with_registry with_ssl with_cerr] in Hrun.
  fold n f pp in Hrun.
  destruct (writable w f) eqn:Ew; [|discriminate].
  destruct (PEM_write_bio_PKCS8PrivateKey k _ _ s2) as [[data|] s3] eqn:Ep;
    [|discriminate].
  inversion Hrun; subst w'. clear Hrun.
  exists s1, k, s2, data, s3. repeat (split; [reflexivity || assumption|]).
  apply world_eq; try reflexivity.
  cbn [trace]. unfold request_events. fold n f.
  now rewrite <- !app_assoc.
Qed.

(** A round that exits: it does so with status 1, before its file is
    complete, and it touches no file but its own. *)
Lemma generate_one_exited (t : Template) (now : Z) (ki : KeyNumber)
    (w w' : World) (s : Z) :
  generate_one t now ki w = Exited s w' ->
  let f := private_key_filename t (_number ki) in
  s = 1%Z
  /\ (exists evs, trace w' = trace w ++ evs /\ cut_short t ki evs)
  /\ (fs w' = fs w
      \/ fs w' = <[f := Partial (private_header (_number ki))]> (fs w))
  /\ ticks w' = ticks w /\ clock w' = clock w /\ writable w' = writable w
  /\ (registry w' = registry w
      \/ exists k, registry w' = set_key (_number ki) k now (registry w)).
Proof.
  intros Hrun f. unfold generate_one, bind in Hrun.
  rewrite generate_key_run in Hrun.
  destruct (RSA_new (ssl w)) as [[] s1].
  2:{ inversion Hrun; subst. split; [reflexivity|].
      split; [exists []; split; [now rewrite app_nil_r | now left]|].
      split; [now left|]. repeat (split; [reflexivity|]). now left. }
  destruct (RSA_generate_key_ex 1024 7 s1) as [[k|] s2].
  2:{ inversion Hrun; subst. split; [reflexivity|].
      split; [exists []; split; [now rewrite app_nil_r | now left]|].
      split; [now left|]. repeat (split; [reflexivity|]). now left. }
  unfold update in Hrun. rewrite write_private_key_run in Hrun.
  cbv zeta in Hrun.
  cbn [writable ssl fs cerr registry clock ticks trace with_event
         with_registry with_ssl with_cerr] in Hrun.
  fold f in Hrun.
  destruct (writable w f) eqn:Ew.
  - destruct (PEM_write_bio_PKCS8PrivateKey k _ _ s2) as [[data|] s3];
      [discriminate|].
    inversion Hrun; subst. split; [reflexivity|].
    split.
    { eexists. split; [|right; right; reflexivity].
      cbn. rewrite <- ?app_assoc. reflexivity. }
    split; [now right|]. repeat (split; [reflexivity|]).
    right. now exists k.
  - inversion Hrun; subst. split; [reflexivity|].
    split.
    { eexists. split; [|right; left; reflexivity].
      cbn. rewrite <- ?app_assoc. reflexivity. }
    split; [now left|]. repeat (split; [reflexivity|]).
    right. now exists k.
Qed.

(** *** write_public_keys *)

Lemma with_fs_insert_twice (path : string) (a b : FileState) (w : World) :
  with_fs (insert path b) (with_fs (insert path a) w)
  = with_fs (insert path b) w.
Proof.
  apply world_eq; try reflexivity. cbn. apply insert_insert_eq.
Qed.

Lemma with_fs_insert_same (path : string) (a : FileState) (w : World) :
  fs w !! path = Some a -> with_fs (insert path a) w = w.
Proof.
  intros Hp. apply world_eq; try reflexivity. cbn. now apply insert_id.
Qed.

Lemma join_cons (x : string) (l : list string) :
  join (x :: l) = x +:+ join l.
Proof. reflexivity. Qed.

(** A loop whose rounds each append a piece of text to the open file. *)
Lemma for_each_append {A} (l : list A) (body : A -> M unit)
    (f : A -> string) (path : string) :
  (forall x t w, fs w !! path = Some (Partial t) ->
     body x w = Done tt (with_fs (insert path (Partial (t +:+ f x))) w)) ->
  forall t w, fs w !! path = Some (Partial t) ->
    for_each l body w
    = Done tt (with_fs (insert path (Partial (t +:+ join (map f l)))) w).
Proof.
  intros Hbody. induction l as [|x l IH]; intros t w Hp.
  - cbn [for_each map]. unfold ret, join. cbn [foldr].
    now rewrite append_nil_r, with_fs_insert_same.
  - cbn [for_each map]. unfold bind. rewrite (Hbody x t w Hp).
    rewrite (IH (t +:+ f x)) by (cbn; apply lookup_insert_eq).
    now rewrite with_fs_insert_twice, join_cons, append_assoc.
Qed.

Lemma blob_loop_run (path : string) (reg : list KeySlot) (l : list nat) :
  forall t w, fs w !! path = Some (Partial t) ->
    for_each l (write_public_blob path reg) w
    = match before_failure reg l with
      | None =>
          Done tt (with_fs (insert path
                     (Partial (t +:+ join (map (public_blob reg) l)))) w)
      | Some l1 =>
          Exited 1
            (with_cerr (fun c => c ++ [SslErrors])
               (with_fs (insert path
                  (Partial (t +:+ join (map (public_blob reg) l1)))) w))
      end.
Proof.
  induction l as [|i l IH]; intros t w Hp.
  - cbn [for_each map before_failure]. unfold ret, join. cbn [foldr].
    now rewrite append_nil_r, with_fs_insert_same.
  - cbn [for_each map before_failure]. unfold bind.
    assert (Hnext : forall piece,
      public_blob reg i = piece ->
      write_public_blob path reg i w
      = Done tt (with_fs (insert path (Partial (t +:+ piece))) w) ->
      match write_public_blob path reg i w with
      | Done _ w' => for_each l (write_public_blob path reg) w'
      | Exited s w' => Exited s w'
      end
      = match cons i <$> before_failure reg l with
        | None =>
            Done tt (with_fs (insert path
              (Partial (t +:+ join (public_blob reg i
                                      :: map (public_blob reg) l)))) w)
        | Some l1 =>
            Exited 1
              (with_cerr (fun c => c ++ [SslErrors])
                 (with_fs (insert path
                    (Partial (t +:+ join (map (public_blob reg) l1)))) w))
        end).
    { intros piece Hpiece Hstep. rewrite Hstep.
      rewrite (IH (t +:+ piece)) by (cbn; apply lookup_insert_eq).
      destruct (before_failure reg l) as [l1|]; cbn [fmap option_fmap option_map].
      - cbn [map]. rewrite join_cons, Hpiece, with_fs_insert_twice.
        now rewrite append_assoc.
      - rewrite join_cons, Hpiece, with_fs_insert_twice.
        now rewrite append_assoc. }
    unfold write_public_blob, public_blob in *.
    destruct (get_key reg i) as [pkey|].
    + destruct (PEM_write_bio_PUBKEY pkey) as [data|].
      * apply (Hnext _ eq_refl). unfold bind.
        erewrite out_put_partial by eassumption.
        erewrite out_put_partial by (cbn; apply lookup_insert_eq).
        now rewrite with_fs_insert_twice, append_assoc.
      * unfold bind, output_ssl_errors, cerr_put, update, exit.
        cbn [map]. unfold join. cbn [foldr].
        now rewrite append_nil_r, with_fs_insert_same.
    + apply (Hnext _ eq_refl). unfold ret.
      now rewrite append_nil_r, with_fs_insert_same.
Qed.

Lemma before_failure_encodable (reg : list KeySlot) (l : list nat) :
  (forall i pkey, i ∈ l -> get_key reg i = Some pkey ->
                  is_Some (PEM_write_bio_PUBKEY pkey)) ->
  before_failure reg l = None.
Proof.
  induction l as [|i l IH]; intros Hall; [reflexivity|].
  cbn [before_failure].
  rewrite IH by (intros j k Hj; apply Hall; now right).
  destruct (get_key reg i) as [pkey|] eqn:Ek; [|reflexivity].
  destruct (Hall i pkey ltac:(now left) Ek) as [data ->]. reflexivity.
Qed.

Lemma before_failure_some (reg : list KeySlot) (l l1 : list nat) :
  before_failure reg l = Some l1 ->
  exists i pkey, i ∈ l /\ get_key reg i = Some pkey
                 /\ PEM_write_bio_PUBKEY pkey = None.
Proof.
  revert l1. induction l as [|i l IH]; intros l1 Hb; [discriminate|].
  cbn [before_failure] in Hb.
  destruct (get_key reg i) as [pkey|] eqn:Ek.
  - destruct (PEM_write_bio_PUBKEY pkey) as [data|] eqn:Ep.
    + destruct (before_failure reg l) as [l2|]; [|discriminate].
      destruct (IH l2 eq_refl) as (j & k & Hj & Hk & Hn).
      exists j, k. split; [now right | now split].
    + exists i, pkey. split; [now left | now split].
  - destruct (before_failure reg l) as [l2|]; [|discriminate].
    destruct (IH l2 eq_refl) as (j & k & Hj & Hk & Hn).
    exists j, k. split; [now right | now split].
Qed.

Lemma write_public_keys_run (outfile : string) (w : World) :
  write_public_keys outfile w
  = let w1 := with_cerr (fun l => l ++ [Line ("Rewriting " +:+ outfile
                                                 +:+ chr nl)]) w in
    let reg := registry w in
    if writable w outfile then
      match before_failure reg (seq 0 (get_num_keys reg)) with
      | None =>
          Done tt
            {| fs := <[outfile := Closed (public_file_text reg)]> (fs w);
               writable := writable w; cerr := cerr w1;
               registry := reg; ssl := ssl w; clock := clock w;
               ticks := ticks w;
               trace := trace w ++ [EvOpen outfile; EvClose outfile] |}
      | Some l1 =>
          Exited 1
            {| fs := <[outfile := Partial
                         (public_header
                            +:+ join (map (public_blob reg) l1))]> (fs w);
               writable := writable w; cerr := cerr w1 ++ [SslErrors];
               registry := reg; ssl := ssl w; clock := clock w;
               ticks := ticks w; trace := trace w ++ [EvOpen outfile] |}
      end
    else
      Exited 1
        (with_cerr (fun l => l ++ [Line ("Unable to open " +:+ outfile
                                           +:+ " for writing." +:+ chr nl)])
           w1).
Proof.
  cbv zeta. unfold write_public_keys.
  unfold bind at 1 2. unfold cerr_line, cerr_put, update, open_write.
  cbn [writable with_cerr].
  destruct (writable w outfile); [|reflexivity].
  cbn [negb]. unfold bind at 1.
  rewrite out_put_partial with (t := "")
    by (cbn [fs with_event with_fs with_cerr]; apply lookup_insert_eq).
  cbn [registry with_fs with_event with_cerr].
  unfold bind at 1.
  erewrite blob_loop_run by (cbn; apply lookup_insert_eq).
  destruct (before_failure (registry w) _) as [l1|].
  - f_equal. apply world_eq; try reflexivity.
    cbn. now rewrite !insert_insert_eq, append_nil_l.
  - unfold bind at 1.
    erewrite out_put_partial by (cbn; apply lookup_insert_eq).
    unfold bind at 1.
    erewrite (for_each_append _ _ (public_table_row (registry w)))
      by (first [ intros x t0 w0 Hp0; now apply out_put_partial
                | cbn; apply lookup_insert_eq ]).
    unfold bind at 1.
    erewrite out_put_partial by (cbn; apply lookup_insert_eq).
    erewrite close_partial by (cbn; apply lookup_insert_eq).
    f_equal. apply world_eq; try reflexivity.
    + cbn. rewrite !insert_insert_eq. unfold public_file_text,
        public_table_open, public_table_close.
      now rewrite append_nil_l, !append_assoc.
    + cbn. now rewrite <- app_assoc.
Qed.

(** *** The start of main *)

Lemma parse_flags_run (fl : list Flag) :
  forall o w,
    parse_flags fl o w
    = match first_terminal fl with
      | None => Done (options_of fl o) w
      | Some flag_h => Exited 0 (with_cerr (fun l => l ++ [Usage]) w)
      | Some _ => Exited 1 w
      end.
Proof.
  induction fl as [|f fl IH]; intros o w; [reflexivity|].
  destruct f; cbn [parse_flags first_terminal options_of];
    try apply IH; reflexivity.
Qed.

Lemma options_of_pub (fl : list Flag) :
  forall o, (got_pub_outfile o = false -> pub_outfile o = "") ->
    got_pub_outfile (options_of fl o) = false ->
    pub_outfile (options_of fl o) = "".
Proof.
  induction fl as [|f fl IH]; intros o Ho; [exact Ho|].
  destruct f; cbn [options_of]; apply IH; cbn; auto; discriminate.
Qed.

Lemma string_eqb_cxx (e : string) :
  negb (String.eqb e "cxx") = true <-> e <> "cxx".
Proof.
  destruct (String.eqb e "cxx") eqn:E; cbn [negb].
  - apply String.eqb_eq in E. split; [discriminate | congruence].
  - apply String.eqb_neq in E. tauto.
Qed.

(** The checks of the file names, case by case. *)
Lemma validate_paths_run (compiled_in : option (list KeySlot * string))
    (o : Options) (w : World) :
  (got_pub_outfile o = false -> pub_outfile o = "") ->
  let pub_ok := String.eqb (Filename.get_extension (pub_outfile o)) "cxx" in
  let priv_ok :=
    got_priv_outfile o
    && String.eqb (Filename.get_extension (priv_outfile o)) "cxx" in
  match validate_paths compiled_in o w with
  | Done pub w' =>
      priv_ok = true
      /\ (if got_pub_outfile o
          then pub_ok = true /\ pub = pub_outfile o /\ w' = w
          else exists prc_pubkeys,
              compiled_in = Some (prc_pubkeys, pub) /\ pub <> ""
              /\ w' = with_registry (record_keys prc_pubkeys) w)
  | Exited s w' =>
      s = 1%Z /\ trace w' = trace w /\ fs w' = fs w /\ ticks w' = ticks w
      /\ (priv_ok = false
          \/ (got_pub_outfile o = true /\ pub_ok = false)
          \/ (got_pub_outfile o = false
              /\ (compiled_in = None
                  \/ exists prc_pubkeys, compiled_in = Some (prc_pubkeys, ""))))
  end.
Proof.
  intros Hpub. cbv zeta. unfold validate_paths, bind.
  destruct (got_pub_outfile o) eqn:Egp.
  - destruct (String.eqb (Filename.get_extension (pub_outfile o)) "cxx")
      eqn:Epub; cbn [negb].
    + unfold ret. destruct (got_priv_outfile o) eqn:Egq; cbn [andb].
      * destruct (String.eqb (Filename.get_extension (priv_outfile o)) "cxx")
          eqn:Epriv; cbn [negb].
        -- now repeat split.
        -- cbn. repeat split; try reflexivity. now left.
      * cbn. repeat split; try reflexivity. now left.
    + cbn. repeat split; try reflexivity. right. left. now split.
  - destruct compiled_in as [[prc_pubkeys filename]|].
    + unfold update, ret. destruct filename as [|c filename].
      * cbn. repeat split; try reflexivity. right. right.
        split; [reflexivity|]. right. now exists prc_pubkeys.
      * destruct (got_priv_outfile o) eqn:Egq; cbn [andb].
        -- destruct (String.eqb (Filename.get_extension (priv_outfile o))
                       "cxx") eqn:Epriv; cbn [negb].
           ++ split; [reflexivity|]. exists prc_pubkeys.
              split; [reflexivity|]. split; [discriminate | reflexivity].
           ++ cbn. repeat split; try reflexivity. now left.
        -- cbn. repeat split; try reflexivity. now left.
    + unfold ret. rewrite (Hpub eq_refl).
      cbn. repeat split; try reflexivity. right. right.
      split; [reflexivity|]. now left.
Qed.

Lemma first_terminal_some (fl : list Flag) (f : Flag) :
  first_terminal fl = Some f -> f = flag_h \/ f = flag_other.
Proof.
  induction fl as [|x fl IH]; [discriminate|].
  destruct x; cbn [first_terminal]; auto; intros Hf; inversion Hf; auto.
Qed.

Lemma options_of_no_options (fl : list Flag) :
  got_pub_outfile (options_of fl no_options) = false ->
  pub_outfile (options_of fl no_options) = "".
Proof. apply options_of_pub. reflexivity. Qed.

(** The start of [main], case by case: it hands over the options, the
    name of the public key file and the requests, or the process exits
    before anything is generated or written. *)
Lemma startup_cases (compiled_in : option (list KeySlot * string))
    (cl : CommandLine) (w : World) :
  let o := options_of (flags cl) no_options in
  match startup compiled_in cl w with
  | Done (o', pub, reqs) w1 =>
      first_terminal (flags cl) = None /\ o' = o /\ params cl <> []
      /\ validate_paths compiled_in o w = Done pub w1
      /\ parse_key_list (got_pass_phrase o) (pass_phrase o) (params cl)
         = inl reqs
  | Exited s w1 =>
      trace w1 = trace w /\ fs w1 = fs w /\ ticks w1 = ticks w
      /\ ((s = 0%Z /\ first_terminal (flags cl) = Some flag_h)
          \/ (s = 1%Z /\ first_terminal (flags cl) = Some flag_other)
          \/ (s = 1%Z /\ first_terminal (flags cl) = None
              /\ (params cl = []
                  \/ (exists w2, validate_paths compiled_in o w
                                 = Exited 1 w2)
                  \/ exists msg,
                      parse_key_list (got_pass_phrase o) (pass_phrase o)
                        (params cl) = inr msg)))
  end.
Proof.
  cbv zeta. unfold startup. unfold bind at 1. rewrite parse_flags_run.
  destruct (first_terminal (flags cl)) as [f|] eqn:Eft.
  { destruct (first_terminal_some _ _ Eft) as [-> | ->];
      cbn; repeat split; try reflexivity; tauto. }
  destruct (params cl) as [|arg args] eqn:Eparams.
  { cbn. repeat split; try reflexivity. right. right. repeat split.
    now left. }
  unfold bind at 1.
  pose proof (validate_paths_run compiled_in
                (options_of (flags cl) no_options) w
                (options_of_no_options _)) as Hv.
  cbv zeta in Hv.
  destruct (validate_paths compiled_in _ w) as [pub w1|s w1] eqn:Ev.
  - destruct (parse_key_list _ _ (arg :: args)) as [reqs|msg] eqn:Ep.
    + unfold ret. repeat split; try reflexivity. discriminate.
    + destruct Hv as (_ & Hw).
      assert (Hsame : trace w1 = trace w /\ fs w1 = fs w
                      /\ ticks w1 = ticks w).
      { destruct (got_pub_outfile _).
        - destruct Hw as (_ & _ & ->). now repeat split.
        - destruct Hw as (t & _ & _ & ->). now repeat split. }
      destruct Hsame as (Ht & Hf & Hk).
      cbn. repeat split; try assumption. right. right.
      repeat split. right. right. now exists msg.
  - destruct Hv as (-> & Ht & Hf & Hk & _).
    repeat split; try assumption. right. right. repeat split.
    right. left. now exists w1.
Qed.

Lemma main_after_startup compiled_in cl w o pub reqs w1 :
  startup compiled_in cl w = Done (o, pub, reqs) w1 ->
  main compiled_in cl w = generate_and_flush o pub reqs w1.
Proof. intros Hs. unfold main, bind. now rewrite Hs. Qed.

Lemma main_startup_exit compiled_in cl w s w1 :
  startup compiled_in cl w = Exited s w1 ->
  main compiled_in cl w = Exited s w1.
Proof. intros Hs. unfold main, bind. now rewrite Hs. Qed.

Lemma generate_and_flush_exits o pub reqs :
  exits_with is_one (generate_and_flush o pub reqs).
Proof.
  unfold generate_and_flush.
  apply exits_with_bind; [apply exits_with_update | intros _].
  apply exits_with_bind; [apply exits_with_time | intros now].
  apply exits_with_bind;
    [apply exits_with_for_each; intros ki; apply generate_one_exits
    | intros _].
  apply exits_with_bind; [apply write_public_keys_exits | intros _].
  apply exits_with_ret.
Qed.

Lemma generate_and_flush_done o pub reqs w v w' :
  generate_and_flush o pub reqs w = Done v w' -> v = 0%Z.
Proof.
  unfold generate_and_flush, bind, update, time, ret. 
  destruct (for_each reqs _ _) as [[] w1|s w1]; [|discriminate].
  destruct (write_public_keys pub w1) as [[] w2|s w2]; [|discriminate].
  intros Hd. now inversion Hd.
Qed.

End Runs.

(** ** The properties of the program *)

Section Properties.

Context `{OpenSSL}.

(** C3: the pass phrase in effect for a request is the one given after
    the comma of its token when there is one, and otherwise the one of
    [-p] when that was given.  When it is the empty string the private
    key is written in the clear (no cipher, no pass phrase); when it is
    any other string the key is encrypted with the cipher under that
    string; when there is none the key is encrypted with the cipher and
    no pass phrase is handed over, so that OpenSSL asks for it.  The
    bytes this call yields are the ones serialized into the file. *)
Theorem pass_phrase_rule (got : bool) (pp arg : string) (key : KeyNumber) :
  parse_key_number got pp arg = inl key ->
  let effective :=
    match snd (strtol arg) with
    | String _ inline => Some inline
    | EmptyString => if got then Some pp else None
    end in
  let '(enc, u) :=
    match effective with
    | Some EmptyString => (None, None)
    | Some p => (Some des_ede3_cbc, Some p)
    | None => (Some des_ede3_cbc, None)
    end in
  (forall c inline, snd (strtol arg) = String c inline -> c = ","%char)
  /\ request_pass_phrase key = effective
  /\ forall pkey outfile n now w,
      writable w outfile = true ->
      match PEM_write_bio_PKCS8PrivateKey pkey enc u (ssl w) with
      | (Some data, _) =>
          exists w',
            write_private_key pkey outfile n now (request_pass_phrase key) w
            = Done tt w'
            /\ fs w' !! outfile
               = Some (Closed (private_file_text outfile n now data))
      | (None, _) =>
          exists w',
            write_private_key pkey outfile n now (request_pass_phrase key) w
            = Exited 1 w'
      end.
Proof.
  intros Hparse effective.
  assert (Heff : request_pass_phrase key = effective
                 /\ forall c inline, snd (strtol arg) = String c inline ->
                                     c = ","%char).
  { subst effective. unfold parse_key_number in Hparse.
    destruct (strtol arg) as [v endptr]. cbn [snd].
    destruct endptr as [|c r].
    - destruct (_ <=? 0)%Z; [discriminate|]. inversion Hparse; subst.
      unfold request_pass_phrase. cbn. split; [reflexivity|]. discriminate.
    - destruct (Ascii.eqb c ",") eqn:Ec; [|discriminate].
      apply Ascii.eqb_eq in Ec. subst c.
      destruct (_ <=? 0)%Z; [discriminate|]. inversion Hparse; subst.
      unfold request_pass_phrase. cbn. split; [reflexivity|].
      intros c inline Hc. now inversion Hc. }
  destruct Heff as (Heff & Hcomma). rewrite Heff. clear Heff Hparse.
  assert (Hargs : pkcs8_arguments effective
                  = match effective with
                    | Some EmptyString => (None, None)
                    | Some p => (Some des_ede3_cbc, Some p)
                    | None => (Some des_ede3_cbc, None)
                    end).
  { now destruct effective as [[|c p]|]. }
  destruct (match effective with
            | Some EmptyString => (None, None)
            | Some p => (Some des_ede3_cbc, Some p)
            | None => (Some des_ede3_cbc, None)
            end) as [enc u].
  split; [exact Hcomma|]. split; [reflexivity|].
  intros pkey outfile n now w Hw.
  rewrite write_private_key_run. cbv zeta. rewrite Hw, Hargs. cbn [fst snd].
  destruct (PEM_write_bio_PKCS8PrivateKey pkey enc u (ssl w)) as [[data|] s].
  - eexists. split; [reflexivity|]. cbn. apply lookup_insert_eq.
  - eexists. reflexivity.
Qed.

(** C5: when the public key file can be opened and every key of the
    registry can be written in PEM form, the file ends up holding, after
    its heading, one serialized key per populated slot, then the table
    [prc_pubkeys] declared with as many entries as the registry has
    slots, with one row per slot in the order of the slots: for a
    populated slot [i] the row that names the data and the length of
    that slot's serialized key together with its time stamp, for an
    absent slot the row of nulls; and then the constant
    [num_prc_pubkeys] with the same number. *)
Theorem write_public_keys_table (outfile : string) (w : World) :
  writable w outfile = true ->
  encodable (registry w) ->
  let reg := registry w in
  let num := get_num_keys reg in
  exists w' blobs rows,
    write_public_keys outfile w = Done tt w'
    /\ fs w' !! outfile
       = Some (Closed
           (public_header +:+ join blobs
              +:+ "static PrcKeyRegistry::KeyDef const prc_pubkeys["
              +:+ string_of_N (N.of_nat num) +:+ "] = {" +:+ chr nl
              +:+ join rows
              +:+ "};" +:+ chr nl +:+ "static const int num_prc_pubkeys = "
              +:+ string_of_N (N.of_nat num) +:+ ";" +:+ chr nl +:+ chr nl))
    /\ num = length reg /\ length rows = num /\ length blobs = num
    /\ forall i slot, reg !! i = Some slot ->
         match _pkey slot with
         | Some pkey =>
             exists data,
               PEM_write_bio_PUBKEY pkey = Some data
               /\ blobs !! i
                  = Some (output_c_string "prc_pubkey" (N.of_nat i) data
                            +:+ chr nl)
               /\ rows !! i
                  = Some ("  { prc_pubkey" +:+ string_of_N (N.of_nat i)
                            +:+ "_data, prc_pubkey"
                            +:+ string_of_N (N.of_nat i) +:+ "_length, "
                            +:+ string_of_Z (_generated_time slot)
                            +:+ " }," +:+ chr nl)
         | None =>
             blobs !! i = Some ""
             /\ rows !! i = Some ("  { nullptr, 0, 0 }," +:+ chr nl)
         end.
Proof.
  intros Hw Henc reg num.
  exists {| fs := <[outfile := Closed (public_file_text reg)]> (fs w);
            writable := writable w;
            cerr := cerr w ++ [Line ("Rewriting " +:+ outfile +:+ chr nl)];
            registry := reg; ssl := ssl w; clock := clock w;
            ticks := ticks w;
            trace := trace w ++ [EvOpen outfile; EvClose outfile] |},
         (map (public_blob reg) (seq 0 num)),
         (map (public_table_row reg) (seq 0 num)).
  split; [|split; [|split; [|split; [|split]]]].
  - rewrite write_public_keys_run. cbv zeta. rewrite Hw.
    fold reg. fold num.
    rewrite before_failure_encodable; [reflexivity|].
    intros i pkey _. apply Henc.
  - cbn [fs]. rewrite lookup_insert_eq.
    unfold public_file_text, public_table_open, public_table_close.
    fold num. now rewrite !append_assoc.
  - reflexivity.
  - now rewrite length_map, length_seq.
  - now rewrite length_map, length_seq.
  - intros i slot Hslot.
    assert (Hi : i < num) by (eapply lookup_lt_Some; eassumption).
    rewrite !list_lookup_fmap, lookup_seq_lt by assumption.
    cbn [fmap option_fmap option_map plus].
    unfold public_blob, public_table_row, get_key, get_generated_time.
    rewrite Hslot.
    destruct (_pkey slot) as [pkey|] eqn:Ek; [|now split].
    destruct (Henc i pkey) as [data Hdata].
    { unfold get_key. fold reg. now rewrite Hslot. }
    exists data. rewrite Hdata. now repeat split.
Qed.

(** The requests are the positional arguments read one by one, in their
    order. *)
Lemma parse_key_list_inl (got : bool) (pp : string) (args : list string) :
  forall reqs, parse_key_list got pp args = inl reqs ->
    Forall2 (fun arg ki => parse_key_number got pp arg = inl ki) args reqs.
Proof.
  induction args as [|arg args IH]; intros reqs Hp; cbn [parse_key_list] in Hp.
  - inversion Hp. constructor.
  - destruct (parse_key_number got pp arg) as [ki|msg] eqn:E; [|discriminate].
    destruct (parse_key_list got pp args) as [kis|msg]; [|discriminate].
    inversion Hp; subst. constructor; [assumption | now apply IH].
Qed.

Lemma parse_key_list_refused (got : bool) (pp : string)
    (args1 args2 : list string) (arg : string) :
  accepted (parse_key_number got pp arg) = false ->
  exists msg, parse_key_list got pp (args1 ++ arg :: args2) = inr msg.
Proof.
  intros Hacc.
  destruct (parse_key_list got pp (args1 ++ arg :: args2)) as [reqs|msg] eqn:E;
    [|now exists msg].
  apply parse_key_list_inl in E.
  apply Forall2_app_inv_l in E as (r1 & r2 & _ & Hr & _).
  inversion Hr as [|? ki ? ? Hki]; subst. rewrite Hki in Hacc. discriminate.
Qed.

(** What a successful start has checked about the file names. *)
Lemma startup_done_paths compiled_in cl w o' pub reqs w1 :
  startup compiled_in cl w = Done (o', pub, reqs) w1 ->
  let o := options_of (flags cl) no_options in
  o' = o /\ got_priv_outfile o = true
  /\ Filename.get_extension (priv_outfile o) = "cxx"
  /\ (if got_pub_outfile o
      then pub = pub_outfile o /\ Filename.get_extension pub = "cxx"
           /\ w1 = w
      else exists prc_pubkeys,
          compiled_in = Some (prc_pubkeys, pub) /\ pub <> ""
          /\ w1 = with_registry (record_keys prc_pubkeys) w)
  /\ parse_key_list (got_pass_phrase o) (pass_phrase o) (params cl)
     = inl reqs.
Proof.
  intros Hs o. pose proof (startup_cases compiled_in cl w) as Hc.
  cbv zeta in Hc. rewrite Hs in Hc.
  destruct Hc as (_ & Ho & _ & Hv & Hp). fold o in Ho, Hv, Hp.
  pose proof (validate_paths_run compiled_in o w
                (options_of_no_options _)) as Hr.
  cbv zeta in Hr. rewrite Hv in Hr. destruct Hr as (Hpriv & Hpub).
  apply andb_prop in Hpriv as (Hgot & Hext). apply String.eqb_eq in Hext.
  split; [assumption|]. split; [assumption|]. split; [assumption|].
  split; [|assumption].
  destruct (got_pub_outfile o).
  - destruct Hpub as (Hok & -> & ->). apply String.eqb_eq in Hok.
    now repeat split.
  - assumption.
Qed.

(** When the options are read through, a start that does not hand over
    is fatal and leaves the files and the trace as they were. *)
Lemma startup_not_done_fatal compiled_in cl w :
  first_terminal (flags cl) = None ->
  (forall o' pub reqs w1,
      startup compiled_in cl w <> Done (o', pub, reqs) w1) ->
  exists w', main compiled_in cl w = Exited 1 w'
             /\ trace w' = trace w /\ fs w' = fs w.
Proof.
  intros Hft Hnot. pose proof (startup_cases compiled_in cl w) as Hc.
  cbv zeta in Hc.
  destruct (startup compiled_in cl w) as [[[o' pub] reqs] w1|s w1] eqn:Es.
  - exfalso. now apply (Hnot o' pub reqs w1).
  - destruct Hc as (Ht & Hf & _ & [(_ & Hh) | [(_ & Hh) | (-> & _)]]);
      try congruence.
    exists w1. split; [now apply main_startup_exit | now split].
Qed.

(** The checks on the file names and what follows from them, for a
    command line whose options are read through. *)
Lemma path_checks (compiled_in : option (list KeySlot * string))
    (cl : CommandLine) (w : World) :
  first_terminal (flags cl) = None ->
  let o := options_of (flags cl) no_options in
  let stops :=
    exists w', main compiled_in cl w = Exited 1 w'
               /\ trace w' = trace w /\ fs w' = fs w in
  (got_pub_outfile o = true ->
   Filename.get_extension (pub_outfile o) <> "cxx" -> stops)
  /\ (got_pub_outfile o = false ->
      compiled_in = None
      \/ (exists prc_pubkeys, compiled_in = Some (prc_pubkeys, "")) ->
      stops)
  /\ (got_priv_outfile o = false -> stops)
  /\ (got_priv_outfile o = true ->
      Filename.get_extension (priv_outfile o) <> "cxx" -> stops)
  /\ (forall o' pub reqs w1,
        startup compiled_in cl w = Done (o', pub, reqs) w1 ->
        got_priv_outfile o = true
        /\ Filename.get_extension (priv_outfile o) = "cxx"
        /\ if got_pub_outfile o
           then pub = pub_outfile o /\ Filename.get_extension pub = "cxx"
           else exists prc_pubkeys,
               compiled_in = Some (prc_pubkeys, pub) /\ pub <> "")
  /\ (forall prc_pubkeys filename reqs,
        got_pub_outfile o = false ->
        compiled_in = Some (prc_pubkeys, filename) -> filename <> "" ->
        got_priv_outfile o = true ->
        Filename.get_extension (priv_outfile o) = "cxx" ->
        params cl <> [] ->
        parse_key_list (got_pass_phrase o) (pass_phrase o) (params cl)
        = inl reqs ->
        startup compiled_in cl w
        = Done (o, filename, reqs)
            (with_registry (record_keys prc_pubkeys) w)).
Proof.
  intros Hft o stops.
  assert (Hstop : forall P : Prop,
    (forall o' pub reqs w1,
        startup compiled_in cl w = Done (o', pub, reqs) w1 -> ~ P) ->
    P -> stops).
  { intros P Hno HP. apply startup_not_done_fatal; [assumption|].
    intros o' pub reqs w1 Hs. now apply (Hno o' pub reqs w1 Hs). }
  split; [|split; [|split; [|split; [|split]]]].
  - intros Hgot Hext.
    apply (Hstop (Filename.get_extension (pub_outfile o) <> "cxx"));
      [|assumption].
    intros o' pub reqs w1 Hs Hne.
    destruct (startup_done_paths _ _ _ _ _ _ _ Hs) as (_ & _ & _ & Hpub & _).
    fold o in Hpub. rewrite Hgot in Hpub. destruct Hpub as (-> & He & _).
    contradiction.
  - intros Hgot Hcfg. apply (Hstop True); [|exact I].
    intros o' pub reqs w1 Hs _.
    destruct (startup_done_paths _ _ _ _ _ _ _ Hs) as (_ & _ & _ & Hpub & _).
    fold o in Hpub. rewrite Hgot in Hpub.
    destruct Hpub as (t & Hc & Hne & _).
    destruct Hcfg as [Hcfg | [t' Hcfg]]; congruence.
  - intros Hgot. apply (Hstop True); [|exact I].
    intros o' pub reqs w1 Hs _.
    destruct (startup_done_paths _ _ _ _ _ _ _ Hs) as (_ & Hp & _).
    fold o in Hp. congruence.
  - intros Hgot Hext. apply (Hstop True); [|exact I].
    intros o' pub reqs w1 Hs _.
    destruct (startup_done_paths _ _ _ _ _ _ _ Hs) as (_ & _ & Hp & _).
    fold o in Hp. contradiction.
  - intros o' pub reqs w1 Hs.
    destruct (startup_done_paths _ _ _ _ _ _ _ Hs)
      as (_ & Hgp & Hep & Hpub & _).
    fold o in Hgp, Hep, Hpub. split; [assumption|]. split; [assumption|].
    destruct (got_pub_outfile o).
    + destruct Hpub as (? & ? & _). now split.
    + destruct Hpub as (t & ? & ? & _). exists t. now split.
  - intros t filename reqs Hgot Hcfg Hne Hgp Hep Hparams Hparse.
    unfold startup. unfold bind at 1. rewrite parse_flags_run, Hft.
    fold o. destruct (params cl) as [|arg args] eqn:Eparams;
      [contradiction|].
    unfold bind at 1. unfold validate_paths. unfold bind at 1.
    rewrite Hgot, Hcfg. unfold bind at 1. unfold update, ret.
    destruct filename as [|c filename]; [contradiction|].
    rewrite Hgp, Hep. cbn [String.eqb negb]. 
    rewrite Hparse. reflexivity.
Qed.

(** C7: when the options are read through: a [-a] file name whose
    extension is not [cxx] is fatal; without [-a], a build without a
    compiled-in file name (or with an empty one) is fatal; a missing
    [-b] is fatal; a [-b] file name whose extension is not [cxx] is
    fatal; and a start that hands over has checked all of this, the
    public key file being the [-a] file name when given and the
    compiled-in name otherwise, which takes over whenever the other
    checks pass. *)
Theorem path_validation (compiled_in : option (list KeySlot * string))
    (cl : CommandLine) (w : World) :
  first_terminal (flags cl) = None ->
  let o := options_of (flags cl) no_options in
  let stops :=
    exists w', main compiled_in cl w = Exited 1 w'
               /\ trace w' = trace w /\ fs w' = fs w in
  (got_pub_outfile o = true ->
   Filename.get_extension (pub_outfile o) <> "cxx" -> stops)
  /\ (got_pub_outfile o = false ->
      compiled_in = None
      \/ (exists prc_pubkeys, compiled_in = Some (prc_pubkeys, "")) ->
      stops)
  /\ (got_priv_outfile o = false -> stops)
  /\ (got_priv_outfile o = true ->
      Filename.get_extension (priv_outfile o) <> "cxx" -> stops)
  /\ (forall o' pub reqs w1,
        startup compiled_in cl w = Done (o', pub, reqs) w1 ->
        got_priv_outfile o = true
        /\ Filename.get_extension (priv_outfile o) = "cxx"
        /\ if got_pub_outfile o
           then pub = pub_outfile o /\ Filename.get_extension pub = "cxx"
           else exists prc_pubkeys,
               compiled_in = Some (prc_pubkeys, pub) /\ pub <> "")
  /\ (forall prc_pubkeys filename reqs,
        got_pub_outfile o = false ->
        compiled_in = Some (prc_pubkeys, filename) -> filename <> "" ->
        got_priv_outfile o = true ->
        Filename.get_extension (priv_outfile o) = "cxx" ->
        params cl <> [] ->
        parse_key_list (got_pass_phrase o) (pass_phrase o) (params cl)
        = inl reqs ->
        startup compiled_in cl w
        = Done (o, filename, reqs)
            (with_registry (record_keys prc_pubkeys) w)).
Proof. exact (path_checks compiled_in cl w). Qed.

(** How the rest of [main] runs, given how the first rounds, the next
    round and the writing of the public key file run. *)
Lemma generate_and_flush_run o pub reqs w :
  let now := clock w (ticks w) in
  let w0 := with_ticks (S (ticks w)) (with_ssl (OpenSSL_init (ssl w)) w) in
  generate_and_flush o pub reqs w
  = match for_each reqs (generate_one (split_template (priv_outfile o)) now)
            w0 with
    | Done _ w1 =>
        match write_public_keys pub w1 with
        | Done _ w2 => Done 0%Z w2
        | Exited s w2 => Exited s w2
        end
    | Exited s w1 => Exited s w1
    end.
Proof.
  cbv zeta. unfold generate_and_flush, bind, update, time, ret.
  destruct (for_each reqs _ _) as [[] w1|s w1]; [|reflexivity].
  now destruct (write_public_keys pub w1) as [[] w2|s w2].
Qed.

Lemma for_each_exit_at {A} (l1 l2 : list A) (x : A) (body : A -> M unit)
    (w w1 w2 : World) (s : Z) :
  for_each l1 body w = Done tt w1 -> body x w1 = Exited s w2 ->
  for_each (l1 ++ x :: l2) body w = Exited s w2.
Proof.
  intros H1 Hx. rewrite for_each_app. unfold bind. rewrite H1.
  cbn [for_each]. unfold bind. now rewrite Hx.
Qed.

(** C6: the exit status is 0 or 1, and it is 0 exactly when the options
    end at [-h] or [main] returns instead of calling [exit]; and [main]
    returns exactly when its start hands over, every round of the
    generation loop runs through and the public key file is written to
    its end.  The status is 1 when the
    options end at an unknown option; when no positional argument is
    left; when a file name has the wrong extension, [-b] is missing, or
    [-a] is missing with nothing compiled in; when a positional
    argument is refused; and, for the rest of [main], whenever a round
    of the generation loop or the writing of the public key file
    exits, which they do with status 1 when an allocation or the key
    generation fails, when a file cannot be opened, and when a key
    cannot be written in PEM form. *)
Theorem exit_status (compiled_in : option (list KeySlot * string))
    (cl : CommandLine) (w : World) :
  let r := main compiled_in cl w in
  let o := options_of (flags cl) no_options in
  (status_of r = 0%Z \/ status_of r = 1%Z)
  /\ (status_of r = 0%Z <->
      first_terminal (flags cl) = Some flag_h \/ exists v w', r = Done v w')
  /\ ((exists v w', r = Done v w') <->
      exists o' pub reqs w1 w3 w4,
        startup compiled_in cl w = Done (o', pub, reqs) w1
        /\ for_each reqs
             (generate_one (split_template (priv_outfile o'))
                (clock w1 (ticks w1)))
             (with_ticks (S (ticks w1))
                (with_ssl (OpenSSL_init (ssl w1)) w1)) = Done tt w3
        /\ write_public_keys pub w3 = Done tt w4)
  /\ (first_terminal (flags cl) = Some flag_other -> fatal r)
  /\ (first_terminal (flags cl) = None ->
      (params cl = [] -> fatal r)
      /\ (got_pub_outfile o = true ->
          Filename.get_extension (pub_outfile o) <> "cxx" -> fatal r)
      /\ (got_pub_outfile o = false -> compiled_in = None -> fatal r)
      /\ (got_priv_outfile o = false -> fatal r)
      /\ (got_priv_outfile o = true ->
          Filename.get_extension (priv_outfile o) <> "cxx" -> fatal r)
      /\ (forall args1 arg args2,
            params cl = args1 ++ arg :: args2 ->
            accepted (parse_key_number (got_pass_phrase o) (pass_phrase o)
                        arg) = false ->
            fatal r))
  /\ (forall o' pub reqs w1,
        startup compiled_in cl w = Done (o', pub, reqs) w1 ->
        let now := clock w1 (ticks w1) in
        let t := split_template (priv_outfile o') in
        let w2 := with_ticks (S (ticks w1))
                    (with_ssl (OpenSSL_init (ssl w1)) w1) in
        (forall l1 ki l2 w3 w4 s,
            reqs = l1 ++ ki :: l2 ->
            for_each l1 (generate_one t now) w2 = Done tt w3 ->
            generate_one t now ki w3 = Exited s w4 ->
            r = Exited 1 w4)
        /\ (forall w3 w4 s,
              for_each reqs (generate_one t now) w2 = Done tt w3 ->
              write_public_keys pub w3 = Exited s w4 ->
              r = Exited 1 w4))
  /\ (forall t now ki w0,
        (forall s1, RSA_new (ssl w0) = (false, s1) ->
                    fatal (generate_one t now ki w0))
        /\ (forall s1 s2,
              RSA_new (ssl w0) = (true, s1) ->
              RSA_generate_key_ex 1024 7 s1 = (None, s2) ->
              fatal (generate_one t now ki w0)))
  /\ (forall pkey outfile n now pp w0,
        (writable w0 outfile = false ->
         fatal (write_private_key pkey outfile n now pp w0))
        /\ (forall s,
              PEM_write_bio_PKCS8PrivateKey pkey (fst (pkcs8_arguments pp))
                (snd (pkcs8_arguments pp)) (ssl w0) = (None, s) ->
              fatal (write_private_key pkey outfile n now pp w0)))
  /\ (forall t now ki w0 pkey w1 s w2,
        generate_key w0 = Done pkey w1 ->
        write_private_key pkey (private_key_filename t (_number ki))
          (_number ki) now (request_pass_phrase ki)
          (with_event (EvSetKey (_number ki))
             (with_registry (set_key (_number ki) pkey now) w1))
        = Exited s w2 ->
        generate_one t now ki w0 = Exited s w2)
  /\ (forall outfile w0,
        (writable w0 outfile = false ->
         fatal (write_public_keys outfile w0))
        /\ (forall i pkey,
              get_key (registry w0) i = Some pkey ->
              PEM_write_bio_PUBKEY pkey = None ->
              fatal (write_public_keys outfile w0))).
Proof.
  intros r o.
  pose proof (startup_cases compiled_in cl w) as Hc. cbv zeta in Hc.
  fold o in Hc.
  assert (Hstart : forall P : Prop,
    first_terminal (flags cl) = None ->
    (forall o' pub reqs w1,
        startup compiled_in cl w = Done (o', pub, reqs) w1 -> ~ P) ->
    P -> fatal r).
  { intros P Hft Hno HP.
    destruct (startup_not_done_fatal compiled_in cl w Hft) as (w' & Hw & _).
    - intros o' pub reqs w1 Hs. now apply (Hno o' pub reqs w1 Hs).
    - now exists w'. }
  assert (Hstatus :
    (status_of r = 0%Z \/ status_of r = 1%Z)
    /\ (status_of r = 0%Z <->
        first_terminal (flags cl) = Some flag_h
        \/ exists v w', r = Done v w')
    /\ (first_terminal (flags cl) = Some flag_other -> fatal r)).
  { subst r.
    destruct (startup compiled_in cl w) as [[[o' pub] reqs] w1|s w1] eqn:Es.
    - rewrite (main_after_startup _ _ _ _ _ _ _ Es).
      destruct Hc as (Hft & _).
      destruct (generate_and_flush o' pub reqs w1) as [v w2|s w2] eqn:Eg.
      + apply generate_and_flush_done in Eg as ->. cbn [status_of].
        split; [now left|]. split; [|congruence].
        split; [intros _; right; now exists 0%Z, w2 | reflexivity].
      + apply generate_and_flush_exits in Eg. unfold is_one in Eg. subst s.
        cbn [status_of]. split; [now right|]. split; [|congruence].
        split; [discriminate|]. intros [Hh | (v & w' & Hw')]; congruence.
    - rewrite (main_startup_exit _ _ _ _ _ Es). cbn [status_of].
      destruct Hc as (_ & _ & _ & [(-> & Hh) | [(-> & Hh) | (-> & Hh & _)]]).
      + split; [now left|]. split; [|congruence].
        split; [now left | reflexivity].
      + split; [now right|]. split; [|intros _; now exists w1].
        split; [discriminate|]. intros [Hh' | (v & w' & Hw')]; congruence.
      + split; [now right|]. split; [|congruence].
        split; [discriminate|]. intros [Hh' | (v & w' & Hw')]; congruence. }
  destruct Hstatus as (Hs1 & Hs2 & Hs3).
  split; [exact Hs1|]. split; [exact Hs2|].
  split.
  { subst r. split.
    - intros (v & w' & Hm).
      destruct (startup compiled_in cl w) as [[[o' pub] reqs] w1|s w1] eqn:Es.
      2:{ rewrite (main_startup_exit _ _ _ _ _ Es) in Hm. discriminate. }
      rewrite (main_after_startup _ _ _ _ _ _ _ Es), generate_and_flush_run
        in Hm.
      cbv zeta in Hm.
      destruct (for_each reqs _ _) as [[] w3|s w3] eqn:Eloop;
        [|discriminate].
      destruct (write_public_keys pub w3) as [[] w4|s w4] eqn:Epub;
        [|discriminate].
      now exists o', pub, reqs, w1, w3, w4.
    - intros (o' & pub & reqs & w1 & w3 & w4 & Es & Eloop & Epub).
      rewrite (main_after_startup _ _ _ _ _ _ _ Es), generate_and_flush_run.
      cbv zeta. rewrite Eloop, Epub. now exists 0%Z, w4. }
  split; [exact Hs3|].
  split; [|split; [|split; [|split; [|split]]]].
  - intros Hft.
    destruct (path_checks compiled_in cl w Hft)
      as (Hpub & Hcfg & Hnob & Hpriv & _).
    fold o in Hpub, Hcfg, Hnob, Hpriv.
    assert (Hfat : (exists w', main compiled_in cl w = Exited 1 w'
                               /\ trace w' = trace w /\ fs w' = fs w)
                   -> fatal r).
    { intros (w' & Hw & _). now exists w'. }
    split; [|split; [|split; [|split; [|split]]]].
    + intros Hp. apply (Hstart True Hft); [|exact I].
      intros o' pub reqs w1 Hs _. rewrite Hs in Hc.
      destruct Hc as (_ & _ & Hne & _). contradiction.
    + intros Hg He. apply Hfat. now apply Hpub.
    + intros Hg Hn. apply Hfat. apply Hcfg; [assumption | now left].
    + intros Hg. apply Hfat. now apply Hnob.
    + intros Hg He. apply Hfat. now apply Hpriv.
    + intros args1 arg args2 Hparams Hacc.
      apply (Hstart True Hft); [|exact I].
      intros o' pub reqs w1 Hs _. rewrite Hs in Hc.
      destruct Hc as (_ & _ & _ & _ & Hp). rewrite Hparams in Hp.
      destruct (parse_key_list_refused _ _ args1 args2 arg Hacc) as [msg Hm].
      congruence.
  - intros o' pub reqs w1 Hs now t w2. subst r.
    rewrite (main_after_startup _ _ _ _ _ _ _ Hs), generate_and_flush_run.
    cbv zeta. fold now t w2. split.
    + intros l1 ki l2 w3 w4 s -> Hl1 Hki.
      rewrite (for_each_exit_at _ _ _ _ _ _ _ _ Hl1 Hki).
      apply generate_one_exits in Hki. unfold is_one in Hki. now subst s.
    + intros w3 w4 s Hloop Hpub. rewrite Hloop, Hpub.
      apply write_public_keys_exits in Hpub. unfold is_one in Hpub.
      now subst s.
  - intros t now ki w0. split.
    + intros s1 Hnew. unfold generate_one, bind.
      rewrite generate_key_run, Hnew. eexists. reflexivity.
    + intros s1 s2 Hnew Hgen. unfold generate_one, bind.
      rewrite generate_key_run, Hnew, Hgen. eexists. reflexivity.
  - intros pkey outfile n now pp w0. split.
    + intros Hw. rewrite write_private_key_run. cbv zeta. rewrite Hw.
      eexists. reflexivity.
    + intros s Hpem. rewrite write_private_key_run. cbv zeta.
      destruct (writable w0 outfile); [|eexists; reflexivity].
      rewrite Hpem. eexists. reflexivity.
  - intros t now ki w0 pkey w1 s w2 Hk Hw.
    unfold generate_one, bind. rewrite Hk. unfold update. exact Hw.
  - intros outfile w0. split.
    + intros Hw. rewrite write_public_keys_run. cbv zeta. rewrite Hw.
      eexists. reflexivity.
    + intros i pkey Hk Hpem. rewrite write_public_keys_run. cbv zeta.
      destruct (writable w0 outfile); [|eexists; reflexivity].
      destruct (before_failure _ _) as [l1|] eqn:Eb; [eexists; reflexivity|].
      exfalso.
      assert (Hi : i < get_num_keys (registry w0)).
      { unfold get_key in Hk.
        destruct (registry w0 !! i) eqn:El; [|discriminate].
        eapply lookup_lt_Some; eassumption. }
      assert (Hall : forall l, before_failure (registry w0) l = None ->
                               i ∈ l -> False).
      { induction l as [|j l IH]; intros Hb Hin.
        - now apply elem_of_nil in Hin.
        - cbn [before_failure] in Hb. apply elem_of_cons in Hin.
          destruct Hin as [<- | Hin].
          + rewrite Hk, Hpem in Hb. discriminate.
          + apply IH; [|assumption].
            destruct (get_key (registry w0) j) as [kj|].
            * destruct (PEM_write_bio_PUBKEY kj); [|discriminate].
              now destruct (before_failure (registry w0) l).
            * now destruct (before_failure (registry w0) l). }
      apply (Hall _ Eb). apply elem_of_seq. lia.
Qed.

End Properties.

(** ** Distinct key numbers have distinct files *)

Lemma string_of_N_inj (n m : N) : string_of_N n = string_of_N m -> n = m.
Proof.
  intros Heq.
  pose proof (strtol_digits_string_of_N n "" eq_refl) as Hn.
  pose proof (strtol_digits_string_of_N m "" eq_refl) as Hm.
  rewrite Heq, Hm in Hn. now inversion Hn.
Qed.

Lemma string_of_N_pos_head (p : positive) :
  exists c r, string_of_N (Npos p) = String c r
              /\ Ascii.eqb c "-" = false /\ Ascii.eqb c "0" = false.
Proof.
  destruct (string_of_N_head p) as (d & r & Hd & Hs).
  destruct (digit_char_nonzero d Hd) as (_ & Hm & _ & H0 & _).
  now exists (digit_char d), r.
Qed.

Lemma string_of_Z_inj (n m : Z) : string_of_Z n = string_of_Z m -> n = m.
Proof.
  destruct n as [|p|p], m as [|q|q]; cbn [string_of_Z]; intros Heq;
    try reflexivity.
  - destruct (string_of_N_pos_head q) as (c & r & Hs & _ & H0).
    rewrite Hs in Heq. inversion Heq; subst. discriminate.
  - discriminate.
  - destruct (string_of_N_pos_head p) as (c & r & Hs & _ & H0).
    rewrite Hs in Heq. inversion Heq; subst. discriminate.
  - apply string_of_N_inj in Heq. now inversion Heq.
  - destruct (string_of_N_pos_head p) as (c & r & Hs & Hm & _).
    rewrite Hs, append_cons in Heq. inversion Heq; subst. discriminate.
  - discriminate.
  - destruct (string_of_N_pos_head q) as (c & r & Hs & Hm & _).
    rewrite Hs, append_cons in Heq. inversion Heq; subst. discriminate.
  - rewrite !append_cons, !append_nil_l in Heq. inversion Heq as [Hs].
    apply string_of_N_inj in Hs. now inversion Hs.
Qed.

Lemma string_of_Z_not_empty (n : Z) : string_of_Z n <> "".
Proof.
  destruct n as [|p|p]; cbn [string_of_Z]; try discriminate.
  destruct (string_of_N_pos_head p) as (c & r & Hs & _). rewrite Hs.
  discriminate.
Qed.

Lemma append_length (a b : string) :
  String.length (a +:+ b) = String.length a + String.length b.
Proof.
  induction a as [|x a IH]; [reflexivity|].
  rewrite append_cons. cbn [String.length]. now rewrite IH.
Qed.

Lemma append_cancel_l (a x y : string) : a +:+ x = a +:+ y -> x = y.
Proof.
  induction a as [|c a IH]; [now rewrite !append_nil_l|].
  rewrite !append_cons. intros Heq. inversion Heq. now apply IH.
Qed.

Lemma append_cancel_r (s : string) :
  forall x y, x +:+ s = y +:+ s -> x = y.
Proof.
  induction x as [|c x IH]; intros [|d y] Heq.
  - reflexivity.
  - exfalso. apply (f_equal String.length) in Heq.
    rewrite append_nil_l, append_length in Heq. cbn [String.length] in Heq.
    lia.
  - exfalso. apply (f_equal String.length) in Heq.
    rewrite append_nil_l, append_length in Heq. cbn [String.length] in Heq.
    lia.
  - rewrite !append_cons in Heq. inversion Heq. f_equal. now apply IH.
Qed.

Lemma private_key_filename_inj (t : Template) (n m : Z) :
  private_key_filename t n = private_key_filename t m -> n = m.
Proof.
  unfold private_key_filename.
  destruct (got_hash t); cbn [orb].
  - intros Heq. apply append_cancel_l, append_cancel_r in Heq.
    now apply string_of_Z_inj.
  - destruct (n =? 1)%Z eqn:En, (m =? 1)%Z eqn:Em; cbn [negb]; intros Heq.
    + apply Z.eqb_eq in En, Em. congruence.
    + exfalso. apply append_cancel_l in Heq.
      rewrite <- (append_nil_l (suffix t)) in Heq at 1.
      apply append_cancel_r in Heq.
      now apply (string_of_Z_not_empty m).
    + exfalso. apply append_cancel_l in Heq.
      rewrite <- (append_nil_l (suffix t)) in Heq at 2.
      apply append_cancel_r in Heq.
      now apply (string_of_Z_not_empty n).
    + apply append_cancel_l, append_cancel_r in Heq.
      now apply string_of_Z_inj.
Qed.

(** ** The generation loop *)

Section Loop.

Context `{OpenSSL}.

Lemma lookup_set_slot_eq (i : nat) (slot : KeySlot) (reg : list KeySlot) :
  set_slot i slot reg !! i = Some slot.
Proof.
  unfold set_slot. apply list_lookup_insert_eq.
  rewrite length_app, length_replicate. lia.
Qed.

Lemma get_set_slot_ne (i j : nat) (slot : KeySlot) (reg : list KeySlot) :
  i <> j ->
  get_key (set_slot i slot reg) j = get_key reg j
  /\ get_generated_time (set_slot i slot reg) j = get_generated_time reg j.
Proof.
  intros Hne. unfold get_key, get_generated_time, set_slot.
  rewrite list_lookup_insert_ne by assumption.
  destruct (decide (j < length reg)) as [Hlt|Hge].
  - now rewrite lookup_app_l.
  - rewrite lookup_app_r by lia.
    rewrite (lookup_ge_None_2 reg j) by lia.
    destruct (replicate _ absent !! (j - length reg)) as [slot'|] eqn:Er;
      [|now split].
    apply lookup_replicate_1 in Er as [-> _]. now split.
Qed.

Lemma get_set_key_eq (n : Z) (k : EVP_PKEY) (now : Z) (reg : list KeySlot) :
  get_key (set_key n k now reg) (Z.to_nat n) = Some k
  /\ get_generated_time (set_key n k now reg) (Z.to_nat n) = now.
Proof.
  unfold get_key, get_generated_time, set_key.
  now rewrite lookup_set_slot_eq.
Qed.

Lemma stamped_refl (now : Z) (w : World) : stamped now w w.
Proof. repeat split; intros; now left. Qed.

Lemma stamped_trans (now : Z) (w1 w2 w3 : World) :
  stamped now w1 w2 -> stamped now w2 w3 -> stamped now w1 w3.
Proof.
  intros (Ht1 & Hc1 & Hr1 & Hf1) (Ht2 & Hc2 & Hr2 & Hf2).
  split; [congruence|]. split; [congruence|]. split.
  - intros i. destruct (Hr2 i) as [[Hk Hg]|Hnew]; [|now right].
    destruct (Hr1 i) as [[Hk1 Hg1]|[Hs1 Hn1]].
    + left. split; congruence.
    + right. split; [now rewrite Hk | congruence].
  - intros p. destruct (Hf2 p) as [Hsame|Hnew]; [|now right].
    rewrite Hsame. apply Hf1.
Qed.

Lemma generate_one_stamped (t : Template) (now : Z) (ki : KeyNumber) :
  preserves (stamped now) (generate_one t now ki).
Proof.
  intros w.
  destruct (generate_one t now ki w) as [[] w'|s w'] eqn:Erun;
    cbn [world_of].
  - destruct (generate_one_done _ _ _ _ _ Erun)
      as (s1 & k & s2 & data & s3 & _ & _ & _ & _ & ->).
    split; [reflexivity|]. split; [reflexivity|]. cbn [registry fs]. split.
    + intros i. destruct (decide (Z.to_nat (_number ki) = i)) as [<-|Hne].
      * right. destruct (get_set_key_eq (_number ki) k now (registry w))
          as [Hk Hg].
        split; [rewrite Hk; eauto | assumption].
      * left. now apply get_set_slot_ne.
    + intros p.
      destruct (decide (private_key_filename t (_number ki) = p))
        as [<-|Hne].
      * right. left. exists (_number ki), data. apply lookup_insert_eq.
      * left. now apply lookup_insert_ne.
  - destruct (generate_one_exited _ _ _ _ _ _ Erun)
      as (_ & _ & Hfs & Ht & Hc & _ & Hreg).
    split; [assumption|]. split; [assumption|]. split.
    + intros i. destruct Hreg as [-> | [k ->]]; [now left|].
      destruct (decide (Z.to_nat (_number ki) = i)) as [<-|Hne].
      * right. destruct (get_set_key_eq (_number ki) k now (registry w))
          as [Hk Hg].
        split; [rewrite Hk; eauto | assumption].
      * left. now apply get_set_slot_ne.
    + intros p. destruct Hfs as [-> | ->]; [now left|].
      destruct (decide (private_key_filename t (_number ki) = p))
        as [<-|Hne].
      * right. right. exists (_number ki). apply lookup_insert_eq.
      * left. now apply lookup_insert_ne.
Qed.

Lemma generation_loop_stamped (t : Template) (now : Z)
    (reqs : list KeyNumber) :
  preserves (stamped now) (for_each reqs (generate_one t now)).
Proof.
  apply preserves_for_each.
  - apply stamped_refl.
  - apply stamped_trans.
  - intros ki. apply generate_one_stamped.
Qed.

End Loop.

Section Order.

Context `{OpenSSL}.








End Order.

Section Stamps.

Context `{OpenSSL}.

Lemma parse_key_number_positive (got : bool) (pp arg : string)
    (ki : KeyNumber) :
  parse_key_number got pp arg = inl ki -> (0 < _number ki)%Z.
Proof.
  unfold parse_key_number. destruct (strtol arg) as [v endptr].
  destruct endptr as [|c r].
  - cbn [_number]. destruct (int_of_long v <=? 0)%Z eqn:E; [discriminate|].
    intros Hk. inversion Hk. cbn. now apply Z.leb_gt in E.
  - destruct (Ascii.eqb c ","); [|discriminate]. cbn [_number].
    destruct (int_of_long v <=? 0)%Z eqn:E; [discriminate|].
    intros Hk. inversion Hk. cbn. now apply Z.leb_gt in E.
Qed.

(** A complete private key file stays the file of its key number
    through the rounds that follow, whichever of them write it anew. *)
Lemma generation_loop_keeps_file (t : Template) (now : Z)
    (reqs : list KeyNumber) :
  forall w w' n,
    for_each reqs (generate_one t now) w = Done tt w' ->
    (exists data,
        fs w !! private_key_filename t n
        = Some (Closed (private_file_text (private_key_filename t n) n now
                          data))) ->
    exists data,
      fs w' !! private_key_filename t n
      = Some (Closed (private_file_text (private_key_filename t n) n now
                        data)).
Proof.
  induction reqs as [|ki reqs IH]; intros w w' n Hrun Hfile.
  - cbn [for_each] in Hrun. unfold ret in Hrun.
    inversion Hrun; subst. exact Hfile.
  - cbn [for_each] in Hrun. unfold bind in Hrun.
    destruct (generate_one t now ki w) as [[] w1|s w1] eqn:Eone;
      [|discriminate].
    apply (IH w1 w' n Hrun).
    destruct (generate_one_done _ _ _ _ _ Eone)
      as (s1 & k & s2 & data & s3 & _ & _ & _ & _ & ->).
    cbn [fs].
    destruct (decide (private_key_filename t (_number ki)
                      = private_key_filename t n)) as [Heq|Hne].
    + pose proof (private_key_filename_inj _ _ _ Heq) as Hn.
      rewrite Hn. exists data. apply lookup_insert_eq.
    + now rewrite lookup_insert_ne.
Qed.

(** After a loop that ran through, every request has its complete
    private key file. *)
Lemma generation_loop_files (t : Template) (now : Z)
    (reqs : list KeyNumber) :
  forall w w',
    for_each reqs (generate_one t now) w = Done tt w' ->
    forall ki, ki ∈ reqs ->
      exists data,
        fs w' !! private_key_filename t (_number ki)
        = Some (Closed (private_file_text
                          (private_key_filename t (_number ki))
                          (_number ki) now data)).
Proof.
  induction reqs as [|ki0 reqs IH]; intros w w' Hrun ki Hin.
  - now apply elem_of_nil in Hin.
  - cbn [for_each] in Hrun. unfold bind in Hrun.
    destruct (generate_one t now ki0 w) as [[] w1|s w1] eqn:Eone;
      [|discriminate].
    apply elem_of_cons in Hin as [-> | Hin]; [|now apply (IH w1 w' Hrun)].
    apply (generation_loop_keeps_file _ _ _ _ _ _ Hrun).
    destruct (generate_one_done _ _ _ _ _ Eone)
      as (s1 & k & s2 & data & s3 & _ & _ & _ & _ & ->).
    exists data. apply lookup_insert_eq.
Qed.

(** After a loop that ran through, every request has a key in the
    registry, stamped with the time of the loop. *)
Lemma generation_loop_slots (t : Template) (now : Z)
    (reqs : list KeyNumber) :
  forall w w',
    for_each reqs (generate_one t now) w = Done tt w' ->
    forall ki, ki ∈ reqs ->
      is_Some (get_key (registry w') (Z.to_nat (_number ki)))
      /\ get_generated_time (registry w') (Z.to_nat (_number ki)) = now.
Proof.
  induction reqs as [|ki0 reqs IH]; intros w w' Hrun ki Hin.
  - now apply elem_of_nil in Hin.
  - cbn [for_each] in Hrun. unfold bind in Hrun.
    destruct (generate_one t now ki0 w) as [[] w1|s w1] eqn:Eone;
      [|discriminate].
    apply elem_of_cons in Hin as [-> | Hin]; [|now apply (IH w1 w' Hrun)].
    pose proof (generation_loop_stamped t now reqs w1) as Hst.
    rewrite Hrun in Hst. cbn [world_of] in Hst.
    destruct Hst as (_ & _ & Hreg & _).
    destruct (generate_one_done _ _ _ _ _ Eone)
      as (s1 & k & s2 & data & s3 & _ & _ & _ & _ & Hw1).
    assert (Hk : get_key (registry w1) (Z.to_nat (_number ki0)) = Some k
                 /\ get_generated_time (registry w1)
                      (Z.to_nat (_number ki0)) = now).
    { subst w1. cbn [registry]. apply get_set_key_eq. }
    destruct Hk as (Hk & Hg).
    destruct (Hreg (Z.to_nat (_number ki0))) as [[Hk' Hg']|Hnew];
      [|assumption].
    split; [rewrite Hk', Hk; eauto | congruence].
Qed.

Lemma private_file_text_time (p : string) (n now : Z) (data : list ascii) :
  exists before after,
    private_file_text p n now data
    = before +:+ "#define GENERATED_TIME " +:+ string_of_Z now +:+ chr nl
        +:+ after.
Proof.
  unfold private_file_text, private_trailer.
  eexists (private_header n
             +:+ output_c_string "prc_privkey" (size_t_of_int n) data
             +:+ chr nl +:+ chr nl
             +:+ "#define KEY_NUMBER " +:+ string_of_Z n +:+ chr nl
             +:+ "#define KEY_DATA prc_privkey" +:+ string_of_Z n
             +:+ "_data" +:+ chr nl
             +:+ "#define KEY_LENGTH prc_privkey" +:+ string_of_Z n
             +:+ "_length" +:+ chr nl
             +:+ "#define PROGNAME " +:+ chr dquote
             +:+ Filename.get_basename_wo_extension p +:+ chr dquote
             +:+ chr nl), _.
  rewrite !append_assoc. reflexivity.
Qed.

(** The world that the rest of [main] leaves, against the one it
    starts from. *)
Lemma generate_and_flush_stamped o pub reqs w :
  let now := clock w (ticks w) in
  let w' := world_of (generate_and_flush o pub reqs w) in
  ticks w' = S (ticks w)
  /\ (forall i,
        (get_key (registry w') i = get_key (registry w) i
         /\ get_generated_time (registry w') i
            = get_generated_time (registry w) i)
        \/ (is_Some (get_key (registry w') i)
            /\ get_generated_time (registry w') i = now))
  /\ (forall p, p <> pub ->
        fs w' !! p = fs w !! p
        \/ (exists n data,
              fs w' !! p = Some (Closed (private_file_text p n now data)))
        \/ (exists n, fs w' !! p = Some (Partial (private_header n)))).
Proof.
  cbv zeta. rewrite generate_and_flush_run. cbv zeta.
  pose proof (generation_loop_stamped (split_template (priv_outfile o))
                (clock w (ticks w)) reqs
                (with_ticks (S (ticks w))
                   (with_ssl (OpenSSL_init (ssl w)) w))) as Hst.
  destruct (for_each reqs _ _) as [[] w1|s w1]; cbn [world_of] in Hst.
  - destruct Hst as (Ht & _ & Hreg & Hfs).
    cbn [ticks registry fs with_ticks with_ssl] in Ht, Hreg, Hfs.
    assert (Hpub : ticks (world_of (write_public_keys pub w1)) = ticks w1
                   /\ registry (world_of (write_public_keys pub w1))
                      = registry w1
                   /\ forall p, p <> pub ->
                        fs (world_of (write_public_keys pub w1)) !! p
                        = fs w1 !! p).
    { rewrite write_public_keys_run. cbv zeta.
      destruct (writable w1 pub).
      - destruct (before_failure _ _); cbn [world_of ticks registry fs];
          (split; [reflexivity|]; split; [reflexivity|]);
          intros p Hp; now rewrite lookup_insert_ne.
      - cbn. now repeat split. }
    destruct Hpub as (Ht2 & Hr2 & Hf2).
    assert (Hw : world_of
                   match write_public_keys pub w1 with
                   | Done _ w2 => Done 0%Z w2
                   | Exited s w2 => Exited s w2
                   end = world_of (write_public_keys pub w1))
      by now destruct (write_public_keys pub w1).
    rewrite Hw, Ht2, Hr2. split; [assumption|]. split; [assumption|].
    intros p Hp. rewrite (Hf2 p Hp). apply Hfs.
  - destruct Hst as (Ht & _ & Hreg & Hfs).
    cbn [ticks registry fs with_ticks with_ssl] in Ht, Hreg, Hfs.
    split; [assumption|]. split; [assumption|]. intros p _. apply Hfs.
Qed.

Lemma generation_loop_keeps_other (t : Template) (now : Z)
    (reqs : list KeyNumber) :
  forall w w' n,
    for_each reqs (generate_one t now) w = Done tt w' ->
    (forall kj, kj ∈ reqs ->
                _number kj <> n /\ Z.to_nat (_number kj) <> Z.to_nat n) ->
    get_key (registry w') (Z.to_nat n) = get_key (registry w) (Z.to_nat n)
    /\ get_generated_time (registry w') (Z.to_nat n)
       = get_generated_time (registry w) (Z.to_nat n)
    /\ fs w' !! private_key_filename t n = fs w !! private_key_filename t n.
Proof.
  induction reqs as [|ki reqs IH]; intros w w' n Hrun Hother.
  - cbn [for_each] in Hrun. unfold ret in Hrun. inversion Hrun; subst.
    now repeat split.
  - cbn [for_each] in Hrun. unfold bind in Hrun.
    destruct (generate_one t now ki w) as [[] w1|s w1] eqn:Eone;
      [|discriminate].
    destruct (IH w1 w' n Hrun) as (Hk & Hg & Hf).
    { intros kj Hin. apply Hother. now right. }
    destruct (Hother ki ltac:(now left)) as (Hne & Hnat).
    destruct (generate_one_done _ _ _ _ _ Eone)
      as (s1 & k & s2 & data & s3 & _ & _ & _ & _ & Hw1).
    rewrite Hk, Hg, Hf. subst w1. cbn [registry fs].
    destruct (get_set_slot_ne (Z.to_nat (_number ki)) (Z.to_nat n)
                {| _pkey := Some k; _generated_time := now |}
                (registry w) Hnat) as (Hk1 & Hg1).
    split; [exact Hk1|]. split; [exact Hg1|].
    apply lookup_insert_ne. intros Heq.
    now apply private_key_filename_inj in Heq.
Qed.

Lemma main_done_run compiled_in cl w o pub reqs w1 w' :
  startup compiled_in cl w = Done (o, pub, reqs) w1 ->
  main compiled_in cl w = Done 0%Z w' ->
  exists w3,
    for_each reqs
      (generate_one (split_template (priv_outfile o)) (clock w1 (ticks w1)))
      (with_ticks (S (ticks w1)) (with_ssl (OpenSSL_init (ssl w1)) w1))
    = Done tt w3
    /\ registry w' = registry w3
    /\ fs w' = <[pub := Closed (public_file_text (registry w3))]> (fs w3).
Proof.
  intros Hs Hm. rewrite (main_after_startup _ _ _ _ _ _ _ Hs) in Hm.
  rewrite generate_and_flush_run in Hm. cbv zeta in Hm.
  destruct (for_each reqs _ _) as [[] w3|s w3]; [|discriminate].
  exists w3. split; [reflexivity|].
  rewrite write_public_keys_run in Hm. cbv zeta in Hm.
  destruct (writable w3 pub); [|discriminate].
  destruct (before_failure _ _); [discriminate|].
  inversion Hm; subst. now split.
Qed.

(** C9: for a run whose start hands over: the start does not read the
    clock and the rest of [main] reads it once, whether it runs through
    or exits; every slot of the registry then reads as before or holds a
    key stamped with the value read; every file other than the public
    key file is as before, a complete private key file that defines
    [GENERATED_TIME] as the value read, or a file that was being written
    when the process exited; and when the run reaches its end, every
    request has its key in the registry and its private key file, both
    with that one value, and the public key file holds the table of that
    registry. *)
Theorem single_timestamp (compiled_in : option (list KeySlot * string))
    (cl : CommandLine) (w : World) (o : Options) (pub : string)
    (reqs : list KeyNumber) (w1 : World) :
  startup compiled_in cl w = Done (o, pub, reqs) w1 ->
  let now := clock w1 (ticks w1) in
  let w' := world_of (main compiled_in cl w) in
  let t := split_template (priv_outfile o) in
  ticks w1 = ticks w /\ ticks w' = S (ticks w1)
  /\ (forall i,
        (get_key (registry w') i = get_key (registry w1) i
         /\ get_generated_time (registry w') i
            = get_generated_time (registry w1) i)
        \/ (is_Some (get_key (registry w') i)
            /\ get_generated_time (registry w') i = now))
  /\ (forall p, p <> pub ->
        fs w' !! p = fs w1 !! p
        \/ (exists n data,
              fs w' !! p = Some (Closed (private_file_text p n now data)))
        \/ (exists n, fs w' !! p = Some (Partial (private_header n))))
  /\ (forall p n data, exists before after,
        private_file_text p n now data
        = before +:+ "#define GENERATED_TIME " +:+ string_of_Z now
            +:+ chr nl +:+ after)
  /\ (forall w'', main compiled_in cl w = Done 0%Z w'' ->
        fs w' !! pub = Some (Closed (public_file_text (registry w')))
        /\ forall ki, ki ∈ reqs ->
             let n := _number ki in
             let f := private_key_filename t n in
             is_Some (get_key (registry w') (Z.to_nat n))
             /\ get_generated_time (registry w') (Z.to_nat n) = now
             /\ (f <> pub ->
                 exists data,
                   fs w' !! f
                   = Some (Closed (private_file_text f n now data)))).
Proof.
  intros Hs now w' t.
  destruct (startup_done_paths _ _ _ _ _ _ _ Hs) as (_ & _ & _ & Hw1 & _).
  assert (Htick : ticks w1 = ticks w).
  { destruct (got_pub_outfile _).
    - now destruct Hw1 as (_ & _ & ->).
    - now destruct Hw1 as (tb & _ & _ & ->). }
  pose proof (generate_and_flush_stamped o pub reqs w1) as Hst.
  cbv zeta in Hst. rewrite <- (main_after_startup _ _ _ _ _ _ _ Hs) in Hst.
  fold w' now in Hst. destruct Hst as (Ht & Hreg & Hfs).
  split; [assumption|]. split; [assumption|]. split; [assumption|].
  split; [assumption|]. split; [intros; apply private_file_text_time|].
  intros w'' Hdone.
  destruct (main_done_run _ _ _ _ _ _ _ _ Hs Hdone)
    as (w3 & Hloop & Hr & Hf).
  assert (Hw' : w' = w'') by (subst w'; now rewrite Hdone).
  rewrite Hw'. split.
  - rewrite Hf, Hr. apply lookup_insert_eq.
  - intros ki Hin n f.
    destruct (generation_loop_slots _ _ _ _ _ Hloop ki Hin) as (Hk & Hg).
    rewrite Hr. split; [assumption|]. split; [assumption|].
    intros Hne. rewrite Hf, lookup_insert_ne by congruence.
    exact (generation_loop_files _ _ _ _ _ Hloop ki Hin).
Qed.

(** C10: in a run that reaches its end, take a request for the key
    number [n] after which no request for [n] follows.  The round of
    that request generated a key of its own, after the rounds before it
    had run; at the end of the run the registry holds that key under
    [n], stamped with the time of the run, the private key file of [n]
    holds the private half of that key as that round wrote it, and the
    public key file holds the table of that registry.  Whatever earlier
    requests for [n] had put there is gone: they wrote the same slot
    and the same file. *)
Theorem last_occurrence_wins (compiled_in : option (list KeySlot * string))
    (cl : CommandLine) (w : World) (o : Options) (pub : string)
    (l1 l2 : list KeyNumber) (ki : KeyNumber) (w1 w' : World) :
  startup compiled_in cl w = Done (o, pub, l1 ++ ki :: l2) w1 ->
  main compiled_in cl w = Done 0%Z w' ->
  (forall kj, kj ∈ l2 -> _number kj <> _number ki) ->
  let n := _number ki in
  let t := split_template (priv_outfile o) in
  let now := clock w1 (ticks w1) in
  let f := private_key_filename t n in
  let pp := request_pass_phrase ki in
  exists w2 s1 k s2 data s3,
    for_each l1 (generate_one t now)
      (with_ticks (S (ticks w1)) (with_ssl (OpenSSL_init (ssl w1)) w1))
    = Done tt w2
    /\ RSA_new (ssl w2) = (true, s1)
    /\ RSA_generate_key_ex 1024 7 s1 = (Some k, s2)
    /\ PEM_write_bio_PKCS8PrivateKey k (fst (pkcs8_arguments pp))
         (snd (pkcs8_arguments pp)) s2 = (Some data, s3)
    /\ get_key (registry w') (Z.to_nat n) = Some k
    /\ get_generated_time (registry w') (Z.to_nat n) = now
    /\ (f <> pub ->
        fs w' !! f = Some (Closed (private_file_text f n now data)))
    /\ fs w' !! pub = Some (Closed (public_file_text (registry w')))
    /\ (forall kj, kj ∈ l1 -> _number kj = n ->
          private_key_filename t (_number kj) = f
          /\ Z.to_nat (_number kj) = Z.to_nat n).
Proof.
  intros Hs Hdone Hlast n t now f pp.
  destruct (main_done_run _ _ _ _ _ _ _ _ Hs Hdone)
    as (w3 & Hloop & Hr & Hf).
  fold t now in Hloop.
  destruct (startup_done_paths _ _ _ _ _ _ _ Hs) as (_ & _ & _ & _ & Hp).
  apply parse_key_list_inl in Hp.
  assert (Hpos : forall kj, kj ∈ l1 ++ ki :: l2 -> (0 < _number kj)%Z).
  { intros kj Hin. apply list_elem_of_lookup in Hin as [i Hi].
    destruct (Forall2_lookup_r _ _ _ _ _ Hp Hi) as (arg & _ & Harg).
    now apply parse_key_number_positive in Harg. }
  rewrite for_each_app in Hloop. unfold bind in Hloop.
  destruct (for_each l1 (generate_one t now) _) as [[] w2|s w2] eqn:E1;
    [|discriminate].
  cbn [for_each] in Hloop. unfold bind in Hloop.
  destruct (generate_one t now ki w2) as [[] wk|s wk] eqn:Ek;
    [|discriminate].
  destruct (generate_one_done _ _ _ _ _ Ek)
    as (s1 & k & s2 & data & s3 & Hnew & Hgen & Hpem & _ & Hwk).
  fold n f pp in Hpem, Hwk.
  destruct (generation_loop_keeps_other _ _ _ _ _ n Hloop)
    as (Hk & Hg & Hfile).
  { intros kj Hin. split; [now apply Hlast|].
    assert (0 < _number kj)%Z
      by (apply Hpos; rewrite elem_of_app; right; now right).
    assert (0 < n)%Z
      by (apply Hpos; rewrite elem_of_app; right; now left).
    specialize (Hlast kj Hin). fold n in Hlast. lia. }
  fold f in Hfile.
  destruct (get_set_key_eq n k now (registry w2)) as (Hk2 & Hg2).
  exists w2, s1, k, s2, data, s3.
  split; [reflexivity|]. split; [assumption|]. split; [assumption|].
  split; [assumption|].
  rewrite Hr, Hf, Hk, Hg, Hwk. cbn [registry].
  split; [assumption|]. split; [assumption|]. split.
  - intros Hne. rewrite lookup_insert_ne by congruence.
    rewrite Hfile, Hwk. cbn [fs]. apply lookup_insert_eq.
  - split; [apply lookup_insert_eq|].
    intros kj _ Hn. subst f. now rewrite Hn.
Qed.

End Stamps.

(** ** The program on the small instance *)

Section OnToy.

Existing Instance Toy.openssl.

(** The token [2,hunter2]: its key is written encrypted under
    [hunter2]. *)
Lemma pass_phrase_rule_witness :
  parse_key_number false "" ("2," +:+ "hunter2")
  = inl {| _number := 2; _got_pass_phrase := true;
           _pass_phrase := "hunter2" |}
  /\ exists w',
      write_private_key (0%nat : EVP_PKEY) "priv2.cxx" 2 1700000000
        (Some "hunter2") Toy.world = Done tt w'
      /\ fs w' !! "priv2.cxx"
         = Some (Closed (private_file_text "priv2.cxx" 2 1700000000
                           (chars "PRIVATE 0 UNDER hunter2" ++ [nl]))).
Proof.
  assert (Hparse : parse_key_number false "" ("2," +:+ "hunter2")
                   = inl {| _number := 2; _got_pass_phrase := true;
                            _pass_phrase := "hunter2" |})
    by (vm_compute; reflexivity).
  split; [exact Hparse|].
  assert (Hrule :
    (forall c inline,
        snd (strtol ("2," +:+ "hunter2")) = String c inline -> c = ","%char)
    /\ request_pass_phrase
         {| _number := 2; _got_pass_phrase := true;
            _pass_phrase := "hunter2" |} = Some "hunter2"
    /\ forall (pkey : EVP_PKEY) outfile n now w,
        writable w outfile = true ->
        match PEM_write_bio_PKCS8PrivateKey pkey (Some des_ede3_cbc)
                (Some "hunter2") (ssl w) with
        | (Some data, _) =>
            exists w',
              write_private_key pkey outfile n now (Some "hunter2") w
              = Done tt w'
              /\ fs w' !! outfile
                 = Some (Closed (private_file_text outfile n now data))
        | (None, _) =>
            exists w',
              write_private_key pkey outfile n now (Some "hunter2") w
              = Exited 1 w'
        end)
    by exact (pass_phrase_rule false "" ("2," +:+ "hunter2")
                {| _number := 2; _got_pass_phrase := true;
                   _pass_phrase := "hunter2" |} Hparse).
  destruct Hrule as (_ & _ & Hwrite).
  exact (Hwrite (0%nat : EVP_PKEY) "priv2.cxx" 2%Z 1700000000%Z Toy.world
           eq_refl).
Defined.

(** After the levels 1 and 3 only: a table of four rows, with the row
    of level 2 null. *)
Lemma write_public_keys_table_witness :
  exists w' rows,
    write_public_keys "pub.cxx" Toy.world_1_3 = Done tt w'
    /\ length rows = 4
    /\ rows !! 1%nat
       = Some ("  { prc_pubkey1_data, prc_pubkey1_length, 1700000000 },"
                 +:+ chr nl)
    /\ rows !! 2%nat = Some ("  { nullptr, 0, 0 }," +:+ chr nl).
Proof.
  assert (Henc : encodable (registry Toy.world_1_3)).
  { intros i pkey _. eexists. reflexivity. }
  assert (Hw : writable Toy.world_1_3 "pub.cxx" = true) by reflexivity.
  assert (H1 : registry Toy.world_1_3 !! 1%nat
               = Some (@Build_KeySlot Toy.openssl (Some 5%nat) 1700000000))
    by (vm_compute; reflexivity).
  assert (H2 : registry Toy.world_1_3 !! 2%nat = Some absent)
    by (vm_compute; reflexivity).
  destruct (write_public_keys_table "pub.cxx" Toy.world_1_3 Hw Henc)
    as (w' & blobs & rows & Hrun & _ & _ & Hlen & _ & Hrows).
  exists w', rows. split; [exact Hrun|]. split.
  { rewrite Hlen. vm_compute. reflexivity. }
  split.
  - destruct (Hrows 1%nat _ H1) as (data & _ & _ & Hrow).
    rewrite Hrow. vm_compute. reflexivity.
  - exact (proj2 (Hrows 2%nat _ H2)).
Defined.

(** [-a pub.txt] is fatal. *)
Lemma path_validation_witness :
  exists w',
    main None Toy.wrong_extension Toy.world = Exited 1 w'
    /\ trace w' = trace Toy.world /\ fs w' = fs Toy.world.
Proof.
  assert (Hft : first_terminal (flags Toy.wrong_extension) = None)
    by reflexivity.
  assert (Hgot : got_pub_outfile
                   (options_of (flags Toy.wrong_extension) no_options)
                 = true) by reflexivity.
  assert (Hext : Filename.get_extension
                   (pub_outfile
                      (options_of (flags Toy.wrong_extension) no_options))
                 <> "cxx").
  { intros Hext. vm_compute in Hext. discriminate Hext. }
  exact (proj1 (path_validation None Toy.wrong_extension Toy.world Hft)
           Hgot Hext).
Defined.

(** The run [-a pub.cxx -b priv#.cxx 1 3,hunter2 1,]. *)
Lemma toy_startup :
  startup None Toy.command_line Toy.world
  = Done (Toy.options, "pub.cxx", Toy.requests ++ [Toy.last_request])
      Toy.world.
Proof. vm_compute. reflexivity. Qed.

Lemma toy_main :
  main None Toy.command_line Toy.world
  = Done 0%Z (world_of (main None Toy.command_line Toy.world)).
Proof. vm_compute. reflexivity. Qed.

(** That run returns, so its status is 0; the run with [-a pub.txt]
    has status 1. *)
Lemma exit_status_witness :
  status_of (main None Toy.command_line Toy.world) = 0%Z
  /\ status_of (main None Toy.wrong_extension Toy.world) = 1%Z.
Proof.
  pose proof (exit_status None Toy.command_line Toy.world) as Hrun.
  pose proof (exit_status None Toy.wrong_extension Toy.world) as Hbad.
  cbv zeta in Hrun, Hbad.
  destruct Hrun as (_ & Hzero & _).
  destruct Hbad as (_ & _ & _ & _ & Hchecks & _).
  split.
  - apply Hzero. right.
    exists 0%Z, (world_of (main None Toy.command_line Toy.world)).
    exact toy_main.
  - assert (Hft : first_terminal (flags Toy.wrong_extension) = None)
      by reflexivity.
    assert (Hgot : got_pub_outfile
                     (options_of (flags Toy.wrong_extension) no_options)
                   = true) by reflexivity.
    assert (Hext : Filename.get_extension
                     (pub_outfile
                        (options_of (flags Toy.wrong_extension) no_options))
                   <> "cxx").
    { intros Hext. vm_compute in Hext. discriminate Hext. }
    destruct (proj1 (proj2 (Hchecks Hft)) Hgot Hext) as [w' Hw'].
    rewrite Hw'. reflexivity.
Defined.

(** That run reads the clock once, and its three requests carry the
    value read. *)
Lemma single_timestamp_witness :
  ticks (world_of (main None Toy.command_line Toy.world)) = 1
  /\ forall ki,
      ki ∈ Toy.requests ++ [Toy.last_request] ->
      get_generated_time
        (registry (world_of (main None Toy.command_line Toy.world)))
        (Z.to_nat (_number ki)) = 1700000000%Z.
Proof.
  pose proof (single_timestamp None Toy.command_line Toy.world Toy.options
                "pub.cxx" (Toy.requests ++ [Toy.last_request]) Toy.world
                toy_startup) as Hst.
  cbv zeta in Hst. destruct Hst as (_ & Ht & _ & _ & _ & Hdone).
  split; [exact Ht|].
  intros ki Hin.
  destruct (Hdone _ toy_main) as (_ & Hreqs).
  exact (proj1 (proj2 (Hreqs ki Hin))).
Defined.

(** In that run level 1 is requested twice: the registry and
    [priv1.cxx] end up with the third key generated, written in the
    clear as the second request for level 1 asks. *)
Lemma last_occurrence_wins_witness :
  get_key (registry (world_of (main None Toy.command_line Toy.world))) 1
  = Some (2%nat : EVP_PKEY)
  /\ fs (world_of (main None Toy.command_line Toy.world)) !! "priv1.cxx"
     = Some (Closed (private_file_text "priv1.cxx" 1 1700000000
                       (chars "PRIVATE 2 CLEAR" ++ [nl]))).
Proof.
  destruct (last_occurrence_wins None Toy.command_line Toy.world
              Toy.options "pub.cxx" Toy.requests [] Toy.last_request
              Toy.world _ toy_startup toy_main)
    as (w2 & s1 & k & s2 & data & s3 & Hl1 & Hnew & Hgen & Hpem & Hk & _
        & Hfile & _).
  { intros kj Hin. now apply elem_of_nil in Hin. }
  assert (Hs2 : ssl w2 = 2%nat).
  { apply (f_equal (fun r => ssl (world_of r))) in Hl1.
    vm_compute in Hl1. symmetry. exact Hl1. }
  rewrite Hs2 in Hnew.
  assert (Hs1 : s1 = 2%nat) by (inversion Hnew; reflexivity).
  rewrite Hs1 in Hgen.
  assert (Hk2 : k = 2%nat) by (inversion Hgen; reflexivity).
  assert (Hs3 : s2 = 3%nat) by (inversion Hgen; reflexivity).
  rewrite Hk2, Hs3 in Hpem. rewrite Hk2 in Hk.
  assert (Hdata : data = chars "PRIVATE 2 CLEAR" ++ [nl]).
  { vm_compute in Hpem. inversion Hpem. reflexivity. }
  rewrite Hdata in Hfile.
  split; [exact Hk|].
  apply Hfile. vm_compute. discriminate.
Defined.

End OnToy.

(** ** More about the serializer *)

Lemma chars_append (a b : string) : chars (a +:+ b) = chars a ++ chars b.
Proof.
  induction a as [|x a IH]; [reflexivity|].
  rewrite append_cons. cbn [chars app]. now rewrite IH.
Qed.

(** Closes the goal that some known characters are text. *)
Ltac known_text :=
  cbv - [text_char];
  repeat (constructor; [first [left; reflexivity | right; reflexivity]|]);
  constructor.

Lemma output_c_char_flag (b : bool) (c : ascii) :
  snd (output_c_char b c) = Ascii.eqb c nl.
Proof. unfold output_c_char. now destruct (Ascii.eqb c nl). Qed.

Lemma output_c_char_text (b : bool) (c : ascii) :
  Forall text_char (chars (fst (output_c_char b c))).
Proof.
  assert (Hbody : Forall text_char
            (chars (if Ascii.eqb c tab then chr bslash +:+ "t"
                    else if isprint c then chr c
                    else chr bslash +:+ "x"
                         +:+ setw_fill 2 "0" (hex_of_N (N_of_ascii c))))).
  { destruct (Ascii.eqb c tab).
    - known_text.
    - destruct (isprint c) eqn:Hp.
      + constructor; [now left | constructor].
      + destruct c as [[] [] [] [] [] [] [] []];
          try discriminate Hp; known_text. }
  unfold output_c_char. destruct (Ascii.eqb c nl); cbn [fst].
  - known_text.
  - rewrite chars_append. apply Forall_app. split; [|exact Hbody].
    destruct b; [known_text | constructor].
Qed.

Lemma digit_char_text (d : N) : (d < 10)%N -> isprint (digit_char d) = true.
Proof.
  intros Hd.
  assert (Hc : (d = 0 \/ d = 1 \/ d = 2 \/ d = 3 \/ d = 4 \/ d = 5 \/ d = 6
                \/ d = 7 \/ d = 8 \/ d = 9)%N) by lia.
  repeat (destruct Hc as [Hc | Hc]; [subst d; reflexivity|]).
  subst d; reflexivity.
Qed.

Lemma digits_acc_text (fuel : nat) :
  forall n acc,
    Forall text_char (chars acc) ->
    Forall text_char (chars (digits_acc 10 fuel n acc)).
Proof.
  induction fuel as [|f IH]; intros n acc Hacc; [exact Hacc|].
  cbn [digits_acc].
  assert (Hd : Forall text_char (chars (String (digit_char (n mod 10)) acc))).
  { cbn [chars]. constructor; [|exact Hacc].
    left. apply digit_char_text. apply N.mod_lt. lia. }
  destruct (n / 10 =? 0)%N; [exact Hd | now apply IH].
Qed.

Lemma string_of_N_text (n : N) : Forall text_char (chars (string_of_N n)).
Proof. apply digits_acc_text. constructor. Qed.

Lemma output_c_loop_text (data : list ascii) :
  forall b, Forall text_char (chars (output_c_loop b data)).
Proof.
  induction data as [|c data IH]; intros b; [constructor|].
  cbn [output_c_loop].
  pose proof (output_c_char_text b c) as Hc.
  destruct (output_c_char b c) as [t b']. cbn [fst] in Hc.
  rewrite chars_append. apply Forall_app. split; [exact Hc | apply IH].
Qed.

(** X2: when the name given to [output_c_string] is printable, so is all
    it writes, except for the line feeds that end its lines: no control
    character and no character with the high bit set reaches the
    generated source, whatever the bytes of the buffer. *)
Theorem output_c_string_text (string_name : string) (index : N)
    (data : list ascii) :
  Forall text_char (chars string_name) ->
  Forall text_char (chars (output_c_string string_name index data)).
Proof.
  intros Hname. unfold output_c_string, c_string_open, c_string_close.
  repeat (rewrite chars_append; apply Forall_app; split);
    try exact Hname; try apply string_of_N_text;
    try apply output_c_loop_text; known_text.
Qed.

(** X1: two different buffers without backslash and double-quote bytes
    never give the same literal: apart from these two bytes the escaping
    loses nothing, whatever control or high-bit bytes the buffers
    hold. *)
Theorem output_c_loop_injective_plain (d1 d2 : list ascii) :
  Forall plain d1 -> Forall plain d2 -> d1 <> d2 ->
  output_c_loop false d1 <> output_c_loop false d2.
Proof.
  intros H1 H2 Hne Heq. apply Hne.
  pose proof (unescape_output_c_loop d1 H1 false) as R1.
  pose proof (unescape_output_c_loop d2 H2 false) as R2.
  rewrite Heq, R2 in R1. now inversion R1.
Qed.

Lemma last_nl_after_cons (b : bool) (c : ascii) (data : list ascii) :
  last_nl_after b (c :: data) = last_nl_after (Ascii.eqb c nl) data.
Proof.
  unfold last_nl_after. destruct data as [|c' data]; [reflexivity|].
  rewrite last_cons_cons.
  destruct (last (c' :: data)) eqn:E; [reflexivity|].
  apply last_None in E. discriminate E.
Qed.

Lemma output_c_loop_app (d1 d2 : list ascii) :
  forall b,
    output_c_loop b (d1 ++ d2)
    = output_c_loop b d1 +:+ output_c_loop (last_nl_after b d1) d2.
Proof.
  induction d1 as [|c d1 IH]; intros b; [reflexivity|].
  cbn [app output_c_loop]. rewrite last_nl_after_cons.
  pose proof (output_c_char_flag b c) as Hflag.
  destruct (output_c_char b c) as [t b']. cbn [snd] in Hflag. subst b'.
  now rewrite IH, append_assoc.
Qed.

Lemma output_c_loop_no_break (data : list ascii) :
  nl ∉ data -> forall b, b = false -> nl ∉ chars (output_c_loop b data).
Proof.
  induction data as [|c data IH]; intros Hnot b ->.
  - cbn. apply not_elem_of_nil.
  - apply not_elem_of_cons in Hnot as [Hne Hnot].
    cbn [output_c_loop]. unfold output_c_char.
    assert (E : Ascii.eqb c nl = false) by (apply Ascii.eqb_neq; congruence).
    rewrite E. rewrite append_nil_l, chars_append, elem_of_app.
    intros [Hin | Hin]; [|now apply (IH Hnot false eq_refl)].
    destruct (Ascii.eqb c tab).
    + revert Hin. cbv - [elem_of nl]. rewrite !elem_of_cons, elem_of_nil.
      unfold nl. intros [H1 | [H1 | []]]; discriminate H1.
    + destruct (isprint c) eqn:Hp.
      * cbn in Hin. apply list_elem_of_singleton in Hin. congruence.
      * destruct c as [[] [] [] [] [] [] [] []]; try discriminate Hp;
          revert Hin; cbv - [elem_of nl];
          rewrite !elem_of_cons, elem_of_nil; unfold nl;
          intros [H1 | [H1 | [H1 | [H1 | []]]]]; discriminate H1.
Qed.

Lemma output_c_loop_nl (b : bool) (rest : list ascii) :
  output_c_loop b (nl :: rest)
  = chr bslash +:+ "n" +:+ output_c_loop true rest.
Proof. reflexivity. Qed.

Lemma output_c_loop_after_nl (c : ascii) (rest : list ascii) :
  c <> nl ->
  output_c_loop true (c :: rest)
  = literal_break +:+ output_c_loop false (c :: rest).
Proof.
  intros Hne. cbn [output_c_loop]. unfold output_c_char.
  assert (E : Ascii.eqb c nl = false) by now apply Ascii.eqb_neq.
  rewrite E. unfold literal_break. now rewrite append_nil_l, !append_assoc.
Qed.

(** X3: serializing a buffer in two parts gives the text of the first
    part followed by the text of the second, started with the flag the
    first part ends on.  So a line feed byte always gives the two
    characters of its escape and nothing else; the break between two
    literals comes exactly when another kind of byte follows it, so that
    a buffer that ends on a line feed ends its literal on the escape;
    and a buffer without line feed bytes gives a literal on one line. *)
Theorem output_c_loop_line_breaks (b : bool) (d d' : list ascii) (c : ascii) :
  output_c_loop b (d ++ d')
  = output_c_loop b d +:+ output_c_loop (last_nl_after b d) d'
  /\ output_c_loop b (d ++ [nl]) = output_c_loop b d +:+ chr bslash +:+ "n"
  /\ (c <> nl ->
      output_c_loop b (d ++ nl :: c :: d')
      = output_c_loop b d +:+ chr bslash +:+ "n" +:+ literal_break
          +:+ output_c_loop false (c :: d'))
  /\ (nl ∉ d -> nl ∉ chars (output_c_loop false d)).
Proof.
  split; [apply output_c_loop_app|]. split; [|split].
  - rewrite output_c_loop_app. reflexivity.
  - intros Hne. rewrite output_c_loop_app, output_c_loop_nl.
    now rewrite output_c_loop_after_nl.
  - intros Hnot. now apply output_c_loop_no_break.
Qed.

(** X4: whatever the bytes of the buffer, the text ends with the
    declaration of the length constant, and its digits read back as the
    number of bytes of the buffer, not of the escaped text. *)
Theorem output_c_string_length_constant (string_name : string) (index : N)
    (data : list ascii) :
  output_c_string string_name index data
  = c_string_open string_name index +:+ output_c_loop false data
      +:+ chr dquote +:+ ";" +:+ chr nl +:+ "static const unsigned int "
      +:+ string_name +:+ string_of_N index +:+ "_length = "
      +:+ string_of_N (N.of_nat (length data)) +:+ ";" +:+ chr nl
  /\ strtol_digits 10 0
       (string_of_N (N.of_nat (length data)) +:+ ";" +:+ chr nl)
     = (N.of_nat (length data), ";" +:+ chr nl)
  /\ (length data <= String.length (output_c_loop false data)
                  <= 9 * length data)%nat.
Proof.
  split; [reflexivity|]. split; [now apply strtol_digits_string_of_N|].
  assert (Hlen : forall d b,
    (length d <= String.length (output_c_loop b d) <= 9 * length d)%nat).
  { induction d as [|c d IH]; intros b; [cbn; lia|].
    cbn [output_c_loop length].
    assert (Hc : (1 <= String.length (fst (output_c_char b c)) <= 9)%nat).
    { unfold output_c_char. destruct (Ascii.eqb c nl); [cbv; lia|].
      cbn [fst]. rewrite append_length.
      assert (Hb : (String.length
                      (if b then chr dquote +:+ chr nl +:+ "  " +:+ chr dquote
                       else "") <= 5)%nat) by (destruct b; cbv; lia).
      assert (Hbody : (1 <= String.length
                (if Ascii.eqb c tab then chr bslash +:+ "t"
                 else if isprint c then chr c
                 else chr bslash +:+ "x"
                      +:+ setw_fill 2 "0" (hex_of_N (N_of_ascii c))) <= 4)%nat).
      { destruct (Ascii.eqb c tab); [cbv; lia|].
        destruct (isprint c); [cbv; lia|].
        destruct c as [[] [] [] [] [] [] [] []]; cbv; lia. }
      lia. }
    destruct (output_c_char b c) as [t b']. cbn [fst] in Hc.
    rewrite append_length. specialize (IH b'). lia. }
  apply Hlen.
Qed.

(** ** More about the requests and the file names *)

Lemma int_of_long_range (v : Z) : (- 2 ^ 31 <= int_of_long v < 2 ^ 31)%Z.
Proof.
  unfold int_of_long.
  assert (Hm : (0 <= v mod 2 ^ 32 < 2 ^ 32)%Z) by (apply Z.mod_pos_bound; lia).
  destruct (v mod 2 ^ 32 <? 2 ^ 31)%Z eqn:E.
  - apply Z.ltb_lt in E. lia.
  - apply Z.ltb_ge in E. lia.
Qed.

Lemma parse_key_number_range (got : bool) (pp arg : string) (ki : KeyNumber) :
  parse_key_number got pp arg = inl ki ->
  (1 <= _number ki <= 2 ^ 31 - 1)%Z.
Proof.
  unfold parse_key_number. destruct (strtol arg) as [v endptr].
  pose proof (int_of_long_range v) as Hr.
  destruct endptr as [|c r].
  - cbn [_number]. destruct (int_of_long v <=? 0)%Z eqn:E; [discriminate|].
    intros Hk. inversion Hk. cbn. apply Z.leb_gt in E. lia.
  - destruct (Ascii.eqb c ","); [|discriminate]. cbn [_number].
    destruct (int_of_long v <=? 0)%Z eqn:E; [discriminate|].
    intros Hk. inversion Hk. cbn. apply Z.leb_gt in E. lia.
Qed.

(** X5: when the loop over the positional arguments runs through, it has
    made one request per argument, and the key number of every request
    lies between 1 and the largest [int]. *)
Theorem parse_key_list_numbers (got : bool) (pp : string)
    (args : list string) (reqs : list KeyNumber) :
  parse_key_list got pp args = inl reqs ->
  length reqs = length args
  /\ Forall (fun ki => (1 <= _number ki <= 2 ^ 31 - 1)%Z) reqs.
Proof.
  revert reqs. induction args as [|arg args IH]; intros reqs Hp;
    cbn [parse_key_list] in Hp.
  - inversion Hp. split; [reflexivity | constructor].
  - destruct (parse_key_number got pp arg) as [ki|msg] eqn:E; [|discriminate].
    destruct (parse_key_list got pp args) as [kis|msg]; [|discriminate].
    inversion Hp; subst. destruct (IH kis eq_refl) as (Hl & Hf).
    split; [cbn; now rewrite Hl|].
    constructor; [now apply (parse_key_number_range got pp arg) | exact Hf].
Qed.

(** X6: the loop over the positional arguments stops at the first
    argument that is refused, with the message of that argument: what
    follows it is not looked at, however malformed. *)
Theorem parse_key_list_first_error (got : bool) (pp : string)
    (args1 args2 : list string) (arg msg : string) :
  Forall (fun a => accepted (parse_key_number got pp a) = true) args1 ->
  parse_key_number got pp arg = inr msg ->
  parse_key_list got pp (args1 ++ arg :: args2) = inr msg.
Proof.
  intros Hall Hbad. induction Hall as [|a args1 Ha _ IH].
  - cbn [app parse_key_list]. now rewrite Hbad.
  - cbn [app parse_key_list].
    destruct (parse_key_number got pp a) as [ki|m]; [|discriminate Ha].
    now rewrite IH.
Qed.

Lemma strtol_numeral_then (p : positive) (r : string) :
  strtol_digits 10 0 r = (0%N, r) ->
  strtol (string_of_N (Npos p) +:+ r) = (clamp_long (Zpos p), r).
Proof.
  intros Hr.
  destruct (string_of_N_head p) as (d & r0 & Hd & Hs).
  pose proof (strtol_digits_string_of_N (Npos p) r Hr) as Hdig.
  rewrite Hs, append_cons in Hdig |- *.
  destruct (digit_char_nonzero d Hd) as (Hsp & Hm & Hp & H0 & Hdg).
  rewrite strtol_decimal by assumption. now rewrite Hdig.
Qed.

(** X7: for a key number [n] in the range of the positive [int]s, the
    token made of its decimal numeral, a comma and any text [p] gives the
    request for [n] with the pass phrase [p] as it stands, empty or with
    commas of its own; the numeral alone gives the request for [n] with
    what [-p] set. *)
Theorem parse_key_number_inline (got : bool) (pp p : string) (n : Z) :
  (0 < n < 2 ^ 31)%Z ->
  parse_key_number got pp (string_of_Z n +:+ "," +:+ p)
  = inl {| _number := n; _got_pass_phrase := true; _pass_phrase := p |}
  /\ parse_key_number got pp (string_of_Z n)
     = inl {| _number := n; _got_pass_phrase := got; _pass_phrase := pp |}.
Proof.
  intros Hn.
  assert (Hcl : clamp_long n = n).
  { unfold clamp_long, LONG_MIN, LONG_MAX.
    destruct (n <? - 2 ^ 63)%Z eqn:E1; [apply Z.ltb_lt in E1; lia|].
    destruct (2 ^ 63 - 1 <? n)%Z eqn:E2; [apply Z.ltb_lt in E2; lia|].
    reflexivity. }
  assert (Hint : int_of_long n = n) by (apply int_of_long_small; lia).
  assert (Hpos : (int_of_long n <=? 0)%Z = false)
    by (rewrite Hint; apply Z.leb_gt; lia).
  destruct n as [|q|q]; try lia. cbn [string_of_Z]. split.
  - unfold parse_key_number.
    rewrite (strtol_numeral_then q ("," +:+ p)) by reflexivity.
    rewrite Hcl, append_cons, append_nil_l.
    change (Ascii.eqb "," ",") with true. cbv iota. cbn [_number].
    now rewrite Hpos, Hint.
  - unfold parse_key_number.
    pose proof (strtol_numeral_then q "" eq_refl) as Hs.
    rewrite append_nil_r in Hs. rewrite Hs, Hcl. cbn [_number].
    now rewrite Hpos, Hint.
Qed.

(** X8: two different key numbers never get the same private key file
    name, with a hash mark in the [-b] name or without. *)
Theorem distinct_numbers_distinct_files (t : Template) (n m : Z) :
  n <> m -> private_key_filename t n <> private_key_filename t m.
Proof.
  intros Hne Heq. apply Hne. now apply (private_key_filename_inj t).
Qed.

Lemma split_last_suffix (c : ascii) (a b : string) :
  c ∉ chars b -> split_last c (a +:+ String c b) = Some (a, b).
Proof.
  intros Hnot.
  assert (Hb : split_last c b = None).
  { induction b as [|x b IH]; [reflexivity|].
    cbn [chars] in Hnot. apply not_elem_of_cons in Hnot as [Hne Hnot].
    cbn [split_last]. rewrite (IH Hnot).
    assert (E : Ascii.eqb x c = false) by (apply Ascii.eqb_neq; congruence).
    now rewrite E. }
  induction a as [|x a IH].
  - rewrite append_nil_l. cbn [split_last]. rewrite Hb.
    now rewrite Ascii.eqb_refl.
  - rewrite append_cons. cbn [split_last]. now rewrite IH.
Qed.

Lemma split_last_keeps (c : ascii) (s b : string) :
  c ∉ chars b ->
  split_last c (s +:+ b)
  = match split_last c s with
    | Some (d, e) => Some (d, e +:+ b)
    | None => None
    end.
Proof.
  intros Hnot.
  assert (Hb : split_last c b = None).
  { induction b as [|x b IH]; [reflexivity|].
    cbn [chars] in Hnot. apply not_elem_of_cons in Hnot as [Hne Hnot].
    cbn [split_last]. rewrite (IH Hnot).
    assert (E : Ascii.eqb x c = false) by (apply Ascii.eqb_neq; congruence).
    now rewrite E. }
  induction s as [|x s IH].
  - now rewrite append_nil_l.
  - rewrite append_cons. cbn [split_last]. rewrite IH.
    destruct (split_last c s) as [[d e]|]; [reflexivity|].
    now destruct (Ascii.eqb x c).
Qed.

Lemma get_extension_cxx (stem : string) :
  Filename.get_extension (stem +:+ ".cxx") = "cxx".
Proof.
  assert (Hslash : "/"%char ∉ chars ".cxx").
  { cbn [chars]. rewrite !not_elem_of_cons. repeat split; try discriminate.
    apply not_elem_of_nil. }
  assert (Hdot : "."%char ∉ chars "cxx").
  { cbn [chars]. rewrite !not_elem_of_cons. repeat split; try discriminate.
    apply not_elem_of_nil. }
  unfold Filename.get_extension, Filename.get_basename.
  rewrite (split_last_keeps "/" stem ".cxx" Hslash).
  destruct (split_last "/" stem) as [[d e]|].
  - now rewrite (split_last_suffix "." e "cxx" Hdot).
  - now rewrite (split_last_suffix "." stem "cxx" Hdot).
Qed.

(** X9: whatever the [-b] file name and the key number, the name of the
    private key file ends in [.cxx] and has the extension that [-b] is
    required to have. *)
Theorem private_key_filename_extension (priv_outfile : string) (n : Z) :
  (exists stem,
      private_key_filename (split_template priv_outfile) n = stem +:+ ".cxx")
  /\ Filename.get_extension
       (private_key_filename (split_template priv_outfile) n) = "cxx".
Proof.
  assert (Hstem : exists stem,
    private_key_filename (split_template priv_outfile) n = stem +:+ ".cxx").
  { unfold private_key_filename, split_template.
    destruct (split_first hash_mark _) as [[a b]|];
      cbn [got_hash prefix suffix orb].
    - exists (a +:+ string_of_Z n +:+ b). now rewrite !append_assoc.
    - destruct (negb (n =? 1)%Z).
      + exists (Filename.get_fullpath_wo_extension priv_outfile
                +:+ string_of_Z n).
        now rewrite append_assoc.
      + now exists (Filename.get_fullpath_wo_extension priv_outfile). }
  split; [exact Hstem|].
  destruct Hstem as [stem ->]. apply get_extension_cxx.
Qed.

Lemma size_t_of_int_nonneg (n : Z) :
  (0 <= n < 2 ^ 64)%Z -> string_of_N (size_t_of_int n) = string_of_Z n.
Proof.
  intros Hn. unfold size_t_of_int. rewrite Z.mod_small by lia.
  destruct n as [|q|q]; try lia; reflexivity.
Qed.

(** X10: for a key number that is not negative, as [main] passes it,
    the array and the length constant that a private key file declares
    carry the names that its [KEY_DATA] and [KEY_LENGTH] definitions
    use, although the one is written from a [size_t] and the other from
    an [int]. *)
Theorem private_file_names_agree (outfile : string) (n now : Z)
    (data : list ascii) :
  (0 <= n < 2 ^ 31)%Z ->
  exists body rest,
    private_file_text outfile n now data
    = private_header n
        +:+ "static const char * const prc_privkey" +:+ string_of_Z n
        +:+ "_data =" +:+ body
        +:+ "static const unsigned int prc_privkey" +:+ string_of_Z n
        +:+ "_length = " +:+ string_of_N (N.of_nat (length data)) +:+ ";"
        +:+ chr nl +:+ chr nl +:+ chr nl
        +:+ "#define KEY_NUMBER " +:+ string_of_Z n +:+ chr nl
        +:+ "#define KEY_DATA prc_privkey" +:+ string_of_Z n +:+ "_data"
        +:+ chr nl
        +:+ "#define KEY_LENGTH prc_privkey" +:+ string_of_Z n +:+ "_length"
        +:+ chr nl +:+ rest.
Proof.
  intros Hn. unfold private_file_text, output_c_string, c_string_open,
    c_string_close, private_trailer.
  rewrite (size_t_of_int_nonneg n) by lia.
  eexists (chr nl +:+ "  " +:+ chr dquote +:+ output_c_loop false data
             +:+ chr dquote +:+ ";" +:+ chr nl), _.
  rewrite !append_assoc. reflexivity.
Qed.

(** ** More about the runs of the program *)

Section MoreRuns.

Context `{OpenSSL}.

Lemma options_of_app (fl1 fl2 : list Flag) :
  forall o, options_of (fl1 ++ fl2) o = options_of fl2 (options_of fl1 o).
Proof.
  induction fl1 as [|f fl1 IH]; intros o; [reflexivity|].
  destruct f; cbn [app options_of]; apply IH.
Qed.

Lemma options_of_keeps_pub (fl : list Flag) :
  (forall y, flag_a y ∉ fl) ->
  forall o, pub_outfile (options_of fl o) = pub_outfile o
            /\ got_pub_outfile (options_of fl o) = got_pub_outfile o.
Proof.
  induction fl as [|f fl IH]; intros Hno o; [now split|].
  assert (Hrest : forall y, flag_a y ∉ fl).
  { intros y Hin. apply (Hno y). now right. }
  destruct f as [x|x|x| |]; cbn [options_of];
    first [ exfalso; apply (Hno x); left
          | split; [rewrite (proj1 (IH Hrest _))
                   | rewrite (proj2 (IH Hrest _))]; reflexivity ].
Qed.

Lemma options_of_keeps_priv (fl : list Flag) :
  (forall y, flag_b y ∉ fl) ->
  forall o, priv_outfile (options_of fl o) = priv_outfile o
            /\ got_priv_outfile (options_of fl o) = got_priv_outfile o.
Proof.
  induction fl as [|f fl IH]; intros Hno o; [now split|].
  assert (Hrest : forall y, flag_b y ∉ fl).
  { intros y Hin. apply (Hno y). now right. }
  destruct f as [x|x|x| |]; cbn [options_of];
    first [ exfalso; apply (Hno x); left
          | split; [rewrite (proj1 (IH Hrest _))
                   | rewrite (proj2 (IH Hrest _))]; reflexivity ].
Qed.

Lemma options_of_keeps_phrase (fl : list Flag) :
  (forall y, flag_p y ∉ fl) ->
  forall o, pass_phrase (options_of fl o) = pass_phrase o
            /\ got_pass_phrase (options_of fl o) = got_pass_phrase o.
Proof.
  induction fl as [|f fl IH]; intros Hno o; [now split|].
  assert (Hrest : forall y, flag_p y ∉ fl).
  { intros y Hin. apply (Hno y). now right. }
  destruct f as [x|x|x| |]; cbn [options_of];
    first [ exfalso; apply (Hno x); left
          | split; [rewrite (proj1 (IH Hrest _))
                   | rewrite (proj2 (IH Hrest _))]; reflexivity ].
Qed.

(** X11: when an option is given more than once, its last occurrence
    counts: if the [getopt] loop runs through, the options it leaves
    hold the argument of the last [-a], of the last [-b] and of the
    last [-p]. *)
Theorem last_option_counts (fl1 fl2 : list Flag) (x : string) (o : Options)
    (w : World) :
  (first_terminal (fl1 ++ flag_a x :: fl2) = None ->
   (forall y, flag_a y ∉ fl2) ->
   exists o', parse_flags (fl1 ++ flag_a x :: fl2) o w = Done o' w
              /\ pub_outfile o' = x /\ got_pub_outfile o' = true)
  /\ (first_terminal (fl1 ++ flag_b x :: fl2) = None ->
      (forall y, flag_b y ∉ fl2) ->
      exists o', parse_flags (fl1 ++ flag_b x :: fl2) o w = Done o' w
                 /\ priv_outfile o' = x /\ got_priv_outfile o' = true)
  /\ (first_terminal (fl1 ++ flag_p x :: fl2) = None ->
      (forall y, flag_p y ∉ fl2) ->
      exists o', parse_flags (fl1 ++ flag_p x :: fl2) o w = Done o' w
                 /\ pass_phrase o' = x /\ got_pass_phrase o' = true).
Proof.
  split; [|split]; intros Hft Hno; eexists;
    (split; [rewrite parse_flags_run, Hft; reflexivity|]);
    rewrite options_of_app; cbn [options_of].
  - destruct (options_of_keeps_pub fl2 Hno
                {| pub_outfile := x; got_pub_outfile := true;
                   priv_outfile := priv_outfile (options_of fl1 o);
                   got_priv_outfile := got_priv_outfile (options_of fl1 o);
                   pass_phrase := pass_phrase (options_of fl1 o);
                   got_pass_phrase := got_pass_phrase (options_of fl1 o) |})
      as (-> & ->).
    now split.
  - destruct (options_of_keeps_priv fl2 Hno
                {| pub_outfile := pub_outfile (options_of fl1 o);
                   got_pub_outfile := got_pub_outfile (options_of fl1 o);
                   priv_outfile := x; got_priv_outfile := true;
                   pass_phrase := pass_phrase (options_of fl1 o);
                   got_pass_phrase := got_pass_phrase (options_of fl1 o) |})
      as (-> & ->).
    now split.
  - destruct (options_of_keeps_phrase fl2 Hno
                {| pub_outfile := pub_outfile (options_of fl1 o);
                   got_pub_outfile := got_pub_outfile (options_of fl1 o);
                   priv_outfile := priv_outfile (options_of fl1 o);
                   got_priv_outfile := got_priv_outfile (options_of fl1 o);
                   pass_phrase := x; got_pass_phrase := true |})
      as (-> & ->).
    now split.
Qed.

(** X12: [-h] met before any unknown option prints the usage text and
    exits with status 0, whatever else is on the command line; an
    unknown option met first exits with status 1 and prints nothing of
    the program's own; options read through with no positional
    argument left print the usage text and exit with status 1, before
    any file name is looked at.  In the three cases nothing but the
    error stream has changed. *)
Theorem usage_exits (compiled_in : option (list KeySlot * string))
    (cl : CommandLine) (w : World) :
  (first_terminal (flags cl) = Some flag_h ->
   main compiled_in cl w = Exited 0 (with_cerr (fun l => l ++ [Usage]) w))
  /\ (first_terminal (flags cl) = Some flag_other ->
      main compiled_in cl w = Exited 1 w)
  /\ (first_terminal (flags cl) = None -> params cl = [] ->
      main compiled_in cl w
      = Exited 1 (with_cerr (fun l => l ++ [Usage]) w)).
Proof.
  split; [|split].
  - intros Hft. apply main_startup_exit. unfold startup, bind.
    now rewrite parse_flags_run, Hft.
  - intros Hft. apply main_startup_exit. unfold startup, bind.
    now rewrite parse_flags_run, Hft.
  - intros Hft Hp. apply main_startup_exit. unfold startup, bind.
    now rewrite parse_flags_run, Hft, Hp.
Qed.

(** X13: with the options read through and a positional argument
    left, the checks are made in a fixed order and the first one that
    fails is the only one reported: the extension of the [-a] file
    name, then the presence of [-b], then the extension of the [-b]
    file name, then the positional arguments, of which the first one
    refused gives the message.  Each time the process exits with status
    1 and only the error stream has changed. *)
Theorem first_failed_check (compiled_in : option (list KeySlot * string))
    (cl : CommandLine) (w : World) :
  first_terminal (flags cl) = None ->
  params cl <> [] ->
  let o := options_of (flags cl) no_options in
  let says msg :=
    main compiled_in cl w
    = Exited 1 (with_cerr (fun l => l ++ [Line msg]) w) in
  got_pub_outfile o = true ->
  (Filename.get_extension (pub_outfile o) <> "cxx" ->
   says ("Public key output file '" +:+ pub_outfile o
           +:+ "' should have a .cxx extension." +:+ chr nl))
  /\ (Filename.get_extension (pub_outfile o) = "cxx" ->
      (got_priv_outfile o = false ->
       says ("You must use the -b option to specify the private key output filenames."
               +:+ chr nl))
      /\ (got_priv_outfile o = true ->
          (Filename.get_extension (priv_outfile o) <> "cxx" ->
           says ("Private key output file '" +:+ priv_outfile o
                   +:+ "' should have a .cxx extension." +:+ chr nl))
          /\ (Filename.get_extension (priv_outfile o) = "cxx" ->
              forall msg,
                parse_key_list (got_pass_phrase o) (pass_phrase o)
                  (params cl) = inr msg ->
                says msg))).
Proof.
  intros Hft Hparams o says Hgot.
  assert (Hmain : main compiled_in cl w
                  = match validate_paths compiled_in o w with
                    | Done pub w1 =>
                        match parse_key_list (got_pass_phrase o)
                                (pass_phrase o) (params cl) with
                        | inr msg =>
                            Exited 1 (with_cerr (fun l => l ++ [Line msg]) w1)
                        | inl reqs => generate_and_flush o pub reqs w1
                        end
                    | Exited s w1 => Exited s w1
                    end).
  { unfold main, startup. unfold bind at 1 2.
    rewrite parse_flags_run, Hft. fold o.
    destruct (params cl) as [|arg args] eqn:Ep; [contradiction|].
    unfold bind at 1.
    destruct (validate_paths compiled_in o w) as [pub w1|s w1];
      [|reflexivity].
    now destruct (parse_key_list _ _ (arg :: args)). }
  subst says. cbv beta. rewrite Hmain. unfold validate_paths, bind.
  rewrite Hgot. split.
  - intros Hext. apply string_eqb_cxx in Hext. now rewrite Hext.
  - intros Hext. apply String.eqb_eq in Hext. rewrite Hext. cbn [negb].
    unfold ret. split.
    + intros Hb. now rewrite Hb.
    + intros Hb. rewrite Hb. split.
      * intros Hpe. apply string_eqb_cxx in Hpe. now rewrite Hpe.
      * intros Hpe msg Hmsg. apply String.eqb_eq in Hpe.
        rewrite Hpe. cbn [negb]. now rewrite Hmsg.
Qed.

(** X14: a start of [main] that hands over has changed neither the
    files, nor the state of OpenSSL, nor the clock, nor the error
    stream; and it has recorded the compiled-in table of public keys in
    the registry only when [-a] was not given: with [-a] the registry
    is as it was, so that the public key file written at the end holds
    no key of the compiled-in table. *)
Theorem start_records_table_without_a
    (compiled_in : option (list KeySlot * string)) (cl : CommandLine)
    (w : World) (o : Options) (pub : string) (reqs : list KeyNumber)
    (w1 : World) :
  startup compiled_in cl w = Done (o, pub, reqs) w1 ->
  fs w1 = fs w /\ ssl w1 = ssl w /\ ticks w1 = ticks w
  /\ trace w1 = trace w /\ cerr w1 = cerr w
  /\ if got_pub_outfile o
     then registry w1 = registry w /\ pub = pub_outfile o
     else exists prc_pubkeys,
         compiled_in = Some (prc_pubkeys, pub)
         /\ registry w1 = record_keys prc_pubkeys (registry w).
Proof.
  intros Hs.
  destruct (startup_done_paths _ _ _ _ _ _ _ Hs) as (Ho & _ & _ & Hw1 & _).
  rewrite <- Ho in Hw1. destruct (got_pub_outfile o).
  - destruct Hw1 as (Hp & _ & ->). now repeat split.
  - destruct Hw1 as (tbl & Hc & _ & ->).
    repeat (split; [reflexivity|]). now exists tbl.
Qed.

(** X15: when its file cannot be opened, either emitter says that it
    rewrites the file, says that it cannot open it, and exits with
    status 1; nothing but the error stream has changed. *)
Theorem open_failure (pkey : EVP_PKEY) (outfile : string) (n now : Z)
    (pp : option string) (w : World) :
  writable w outfile = false ->
  let w' :=
    with_cerr (fun l => l ++ [Line ("Rewriting " +:+ outfile +:+ chr nl);
                              Line ("Unable to open " +:+ outfile
                                      +:+ " for writing." +:+ chr nl)]) w in
  write_private_key pkey outfile n now pp w = Exited 1 w'
  /\ write_public_keys outfile w = Exited 1 w'.
Proof.
  intros Hw w'. rewrite write_private_key_run, write_public_keys_run.
  cbv zeta. rewrite Hw.
  assert (Heq : with_cerr
                  (fun l => l ++ [Line ("Unable to open " +:+ outfile
                                          +:+ " for writing." +:+ chr nl)])
                  (with_cerr
                     (fun l => l ++ [Line ("Rewriting " +:+ outfile
                                             +:+ chr nl)]) w) = w').
  { apply world_eq; try reflexivity. cbn. now rewrite <- app_assoc. }
  now rewrite Heq.
Qed.


Lemma generation_loop_cerr (t : Template) (now : Z)
    (reqs : list KeyNumber) :
  forall w w',
    for_each reqs (generate_one t now) w = Done tt w' ->
    cerr w'
    = cerr w ++ map (fun ki =>
                       Line ("Rewriting "
                               +:+ private_key_filename t (_number ki)
                               +:+ chr nl)) reqs.
Proof.
  induction reqs as [|ki reqs IH]; intros w w' Hrun.
  - cbn [for_each] in Hrun. unfold ret in Hrun. inversion Hrun; subst.
    cbn. now rewrite app_nil_r.
  - cbn [for_each] in Hrun. unfold bind in Hrun.
    destruct (generate_one t now ki w) as [[] w1|s w1] eqn:Eone;
      [|discriminate].
    rewrite (IH w1 w' Hrun).
    destruct (generate_one_done _ _ _ _ _ Eone)
      as (s1 & k & s2 & data & s3 & _ & _ & _ & _ & ->).
    cbn [cerr map]. now rewrite <- app_assoc.
Qed.

(** X17: a run that reaches its end has written to the error stream
    one line [Rewriting <file>] for the private key file of each
    request, in the order of the requests, then the same line for the
    public key file, and nothing else. *)
Theorem progress_lines (compiled_in : option (list KeySlot * string))
    (cl : CommandLine) (w : World) (o : Options) (pub : string)
    (reqs : list KeyNumber) (w1 w' : World) :
  startup compiled_in cl w = Done (o, pub, reqs) w1 ->
  main compiled_in cl w = Done 0%Z w' ->
  cerr w'
  = cerr w
      ++ map (fun ki =>
                Line ("Rewriting "
                        +:+ private_key_filename
                              (split_template (priv_outfile o)) (_number ki)
                        +:+ chr nl)) reqs
      ++ [Line ("Rewriting " +:+ pub +:+ chr nl)].
Proof.
  intros Hs Hm.
  assert (Hc1 : cerr w1 = cerr w).
  { destruct (startup_done_paths _ _ _ _ _ _ _ Hs) as (_ & _ & _ & Hw1 & _).
    destruct (got_pub_outfile _).
    - now destruct Hw1 as (_ & _ & ->).
    - now destruct Hw1 as (tb & _ & _ & ->). }
  rewrite (main_after_startup _ _ _ _ _ _ _ Hs) in Hm.
  rewrite generate_and_flush_run in Hm. cbv zeta in Hm.
  destruct (for_each reqs _ _) as [[] w3|s w3] eqn:Eloop; [|discriminate].
  apply generation_loop_cerr in Eloop. cbn [cerr with_ticks with_ssl] in Eloop.
  rewrite write_public_keys_run in Hm. cbv zeta in Hm.
  destruct (writable w3 pub); [|discriminate].
  destruct (before_failure _ _); [discriminate|].
  inversion Hm; subst w'. cbn [cerr with_cerr].
  now rewrite Eloop, Hc1, <- app_assoc.
Qed.

(** X18: a round of the generation loop whose key cannot be
    generated, because an allocation or the generation itself fails,
    exits with status 1 and has recorded no key and opened no file: the
    registry, the files and the trace are as before.  A round whose key
    is generated but whose file cannot be opened exits with status 1
    with the key already recorded in the registry and no file
    touched. *)
Theorem failing_round (t : Template) (now : Z) (ki : KeyNumber) (w : World) :
  let n := _number ki in
  let f := private_key_filename t n in
  (forall s1,
      RSA_new (ssl w) = (false, s1) ->
      exists w', generate_one t now ki w = Exited 1 w'
                 /\ registry w' = registry w /\ fs w' = fs w
                 /\ trace w' = trace w /\ cerr w' = cerr w ++ [SslErrors])
  /\ (forall s1 s2,
        RSA_new (ssl w) = (true, s1) ->
        RSA_generate_key_ex 1024 7 s1 = (None, s2) ->
        exists w', generate_one t now ki w = Exited 1 w'
                   /\ registry w' = registry w /\ fs w' = fs w
                   /\ trace w' = trace w /\ cerr w' = cerr w ++ [SslErrors])
  /\ (forall s1 k s2,
        RSA_new (ssl w) = (true, s1) ->
        RSA_generate_key_ex 1024 7 s1 = (Some k, s2) ->
        writable w f = false ->
        exists w', generate_one t now ki w = Exited 1 w'
                   /\ registry w' = set_key n k now (registry w)
                   /\ fs w' = fs w
                   /\ trace w' = trace w ++ [EvGenerate; EvSetKey n]).
Proof.
  cbv zeta. split; [|split].
  - intros s1 Hnew. unfold generate_one, bind.
    rewrite generate_key_run, Hnew. eexists. split; [reflexivity|].
    now repeat split.
  - intros s1 s2 Hnew Hgen. unfold generate_one, bind.
    rewrite generate_key_run, Hnew, Hgen. eexists. split; [reflexivity|].
    now repeat split.
  - intros s1 k s2 Hnew Hgen Hw. unfold generate_one, bind.
    rewrite generate_key_run, Hnew, Hgen. unfold update.
    rewrite write_private_key_run. cbv zeta.
    cbn [writable with_event with_registry with_ssl]. rewrite Hw.
    eexists. split; [reflexivity|].
    cbn. repeat split. now rewrite <- app_assoc.
Qed.

End MoreRuns.

(** ** The additions on the small instance *)

Section MoreOnToy.

Existing Instance Toy.openssl.

(** The buffers tab, [a] and [a], tab give different literals. *)
Lemma output_c_loop_injective_plain_witness :
  Forall plain [tab; "a"%char] /\ Forall plain ["a"%char; tab]
  /\ output_c_loop false [tab; "a"%char]
     <> output_c_loop false ["a"%char; tab].
Proof.
  assert (H1 : Forall plain [tab; "a"%char]).
  { repeat constructor; discriminate. }
  assert (H2 : Forall plain ["a"%char; tab]).
  { repeat constructor; discriminate. }
  assert (Hne : [tab; "a"%char] <> ["a"%char; tab]) by discriminate.
  split; [exact H1|]. split; [exact H2|].
  exact (output_c_loop_injective_plain _ _ H1 H2 Hne).
Defined.

(** A tab, a line feed and a byte with the high bit set among the
    bytes of a key. *)
Lemma output_c_string_text_witness :
  Forall text_char (chars "prc_pubkey")
  /\ Forall text_char
       (chars (output_c_string "prc_pubkey" 3 Cases.mixed_bytes)).
Proof.
  assert (Hname : Forall text_char (chars "prc_pubkey")) by known_text.
  split; [exact Hname|].
  exact (output_c_string_text "prc_pubkey" 3 Cases.mixed_bytes Hname).
Defined.

(** Two arguments, two requests. *)
Lemma parse_key_list_numbers_witness :
  length Toy.requests = 2
  /\ Forall (fun ki => (1 <= _number ki <= 2 ^ 31 - 1)%Z) Toy.requests.
Proof.
  assert (Hp : parse_key_list false "" ["1"; "3," +:+ "hunter2"]
               = inl Toy.requests) by (vm_compute; reflexivity).
  exact (parse_key_list_numbers false "" ["1"; "3," +:+ "hunter2"]
           Toy.requests Hp).
Defined.

(** The arguments [1 0abc x]: the message is that of [0abc]. *)
Lemma parse_key_list_first_error_witness :
  parse_key_list false "" (["1"] ++ "0abc" :: ["x"])
  = inr ("Parameter '0abc' should be an integer." +:+ chr nl).
Proof.
  assert (Hok : Forall (fun a => accepted (parse_key_number false "" a)
                                 = true) ["1"]).
  { constructor; [vm_compute; reflexivity | constructor]. }
  assert (Hbad : parse_key_number false "" "0abc"
                 = inr ("Parameter '0abc' should be an integer."
                          +:+ chr nl)) by (vm_compute; reflexivity).
  exact (parse_key_list_first_error false "" ["1"] ["x"] "0abc" _ Hok Hbad).
Defined.

(** The token [2,a,b]: the pass phrase is [a,b]. *)
Lemma parse_key_number_inline_witness :
  parse_key_number false "" (string_of_Z 2 +:+ "," +:+ "a,b")
  = inl {| _number := 2; _got_pass_phrase := true; _pass_phrase := "a,b" |}
  /\ parse_key_number false "" (string_of_Z 2)
     = inl {| _number := 2; _got_pass_phrase := false;
              _pass_phrase := "" |}.
Proof.
  assert (Hn : (0 < 2 < 2 ^ 31)%Z) by (split; reflexivity).
  exact (parse_key_number_inline false "" "a,b" 2 Hn).
Defined.

(** The numbers 1 and 2 with [-b priv.cxx]: [priv.cxx] and
    [priv2.cxx]. *)
Lemma distinct_numbers_distinct_files_witness :
  (1 <> 2)%Z
  /\ private_key_filename (split_template "priv.cxx") 1
     <> private_key_filename (split_template "priv.cxx") 2.
Proof.
  assert (Hne : (1 <> 2)%Z) by discriminate.
  split; [exact Hne|].
  exact (distinct_numbers_distinct_files (split_template "priv.cxx") 1 2
           Hne).
Defined.

(** The file of key number 3. *)
Lemma private_file_names_agree_witness :
  exists body rest,
    private_file_text "priv3.cxx" 3 1700000000 Cases.mixed_bytes
    = private_header 3
        +:+ "static const char * const prc_privkey" +:+ string_of_Z 3
        +:+ "_data =" +:+ body
        +:+ "static const unsigned int prc_privkey" +:+ string_of_Z 3
        +:+ "_length = "
        +:+ string_of_N (N.of_nat (length Cases.mixed_bytes)) +:+ ";"
        +:+ chr nl +:+ chr nl +:+ chr nl
        +:+ "#define KEY_NUMBER " +:+ string_of_Z 3 +:+ chr nl
        +:+ "#define KEY_DATA prc_privkey" +:+ string_of_Z 3 +:+ "_data"
        +:+ chr nl
        +:+ "#define KEY_LENGTH prc_privkey" +:+ string_of_Z 3 +:+ "_length"
        +:+ chr nl +:+ rest.
Proof.
  assert (Hn : (0 <= 3 < 2 ^ 31)%Z) by (split; [discriminate | reflexivity]).
  exact (private_file_names_agree "priv3.cxx" 3 1700000000
           Cases.mixed_bytes Hn).
Defined.

(** [-a pub.txt -b priv#.cxx 1]: only the extension of [pub.txt] is
    reported. *)
Lemma first_failed_check_witness :
  main None Toy.wrong_extension Toy.world
  = Exited 1
      (with_cerr
         (fun l => l ++ [Line ("Public key output file '" +:+ "pub.txt"
                                 +:+ "' should have a .cxx extension."
                                 +:+ chr nl)]) Toy.world).
Proof.
  assert (Hft : first_terminal (flags Toy.wrong_extension) = None)
    by reflexivity.
  assert (Hp : params Toy.wrong_extension <> []) by discriminate.
  assert (Hgot : got_pub_outfile
                   (options_of (flags Toy.wrong_extension) no_options)
                 = true) by reflexivity.
  assert (Hext : Filename.get_extension
                   (pub_outfile
                      (options_of (flags Toy.wrong_extension) no_options))
                 <> "cxx").
  { intros Hext. vm_compute in Hext. discriminate Hext. }
  exact (proj1 (first_failed_check None Toy.wrong_extension Toy.world
                  Hft Hp Hgot) Hext).
Defined.

(** Without [-a]: the compiled-in table is recorded and its file name
    is the one of the public key file. *)
Lemma start_records_table_without_a_witness :
  exists w1,
    startup (Some (Cases.prc_pubkeys, "pub.cxx")) Cases.no_a Toy.world
    = Done (Cases.no_a_options, "pub.cxx",
            [{| _number := 2; _got_pass_phrase := false;
                _pass_phrase := "" |}]) w1
    /\ fs w1 = fs Toy.world
    /\ exists table,
        Some (Cases.prc_pubkeys, "pub.cxx") = Some (table, "pub.cxx")
        /\ registry w1 = record_keys table (registry Toy.world).
Proof.
  assert (Hs : startup (Some (Cases.prc_pubkeys, "pub.cxx")) Cases.no_a
                 Toy.world
               = Done (Cases.no_a_options, "pub.cxx",
                       [{| _number := 2; _got_pass_phrase := false;
                           _pass_phrase := "" |}])
                   (world_of (startup (Some (Cases.prc_pubkeys, "pub.cxx"))
                                Cases.no_a Toy.world)))
    by (vm_compute; reflexivity).
  eexists. split; [exact Hs|].
  destruct (start_records_table_without_a _ _ _ _ _ _ _ Hs)
    as (Hfs & _ & _ & _ & _ & Hreg).
  split; [exact Hfs | exact Hreg].
Defined.

(** Nothing can be opened: the two lines, and nothing else. *)
Lemma open_failure_witness :
  write_public_keys "pub.cxx" Cases.read_only
  = Exited 1
      (with_cerr
         (fun l => l ++ [Line ("Rewriting " +:+ "pub.cxx" +:+ chr nl);
                         Line ("Unable to open " +:+ "pub.cxx"
                                 +:+ " for writing." +:+ chr nl)])
         Cases.read_only).
Proof.
  assert (Hw : writable Cases.read_only "pub.cxx" = false) by reflexivity.
  exact (proj2 (open_failure (0%nat : EVP_PKEY) "pub.cxx" 1 1700000000 None
                  Cases.read_only Hw)).
Defined.

(** The run [-a pub.cxx -b priv#.cxx 1 3,hunter2 1,]: four lines. *)
Lemma progress_lines_witness :
  cerr (world_of (main None Toy.command_line Toy.world))
  = cerr Toy.world
      ++ map (fun ki =>
                Line ("Rewriting "
                        +:+ private_key_filename
                              (split_template (priv_outfile Toy.options))
                              (_number ki)
                        +:+ chr nl)) (Toy.requests ++ [Toy.last_request])
      ++ [Line ("Rewriting " +:+ "pub.cxx" +:+ chr nl)].
Proof.
  exact (progress_lines None Toy.command_line Toy.world Toy.options
           "pub.cxx" (Toy.requests ++ [Toy.last_request]) Toy.world _
           toy_startup toy_main).
Defined.

End MoreOnToy.
